(** * Wi-Fi heat map: calibration, scan aggregation, measurement store, grid

    A shallow embedding of the numeric core of [src/Wifi-heatmap.py]
    (class [WiFiHeatmapApp]) and the properties of it that the
    specification states.

    Modelling conventions.
    - Python [float] / NumPy [float64] values are idealised as real numbers
      ([R]): rounding, signed zeros and overflow are not modelled.  The one
      place where IEEE behaviour is visible in the source, a division by
      zero of a [numpy.float64] (which yields [inf] or [nan] instead of
      raising), is kept apart with the type [np_float64].  Where the
      rounding decides the outcome, in the count and the points of the
      grid, the code is modelled a second time in binary64 (module
      [F64]).  Statements over the reals about signal strengths say so,
      and bound the readings where the range of a double matters
      ([math.pow] overflows for readings above about 3080 dBm and the
      watts underflow to zero below about -3200 dBm).
    - The loop [wait_while_interface_scanning] polls the adapter and
      changes no data; it is left out.  The model of a scan is the scan
      whose waits have returned, and what is stated of a scan or of a
      click that scans is stated of one that returns.
    - Python [int] is [Z]; [str] is [string].
    - A Python [dict] is an insertion-ordered association list with unique
      keys ([dict_set] overwrites in place, as CPython does).
    - A Python exception is the [Raise] branch of the result type [py].
    - The Qt widgets, the drawing calls and the prints carry no data of the
      core and are left out; what a dialog or the wireless adapter returns
      is an argument of the handler that asks for it. *)

From Stdlib Require Import Reals.Reals Lra Lia ZArith List String Bool.
From Stdlib Require Uint63 PrimFloat SpecFloat FloatOps.
Import ListNotations.
Open Scope R_scope.

(** ** Python results *)

Inductive exn : Type :=
| ValueError
| LinAlgError.

Inductive py (A : Type) : Type :=
| Ok (a : A)
| Raise (e : exn).
Arguments Ok {A} a.
Arguments Raise {A} e.

Definition py_bind {A B : Type} (m : py A) (k : A -> py B) : py B :=
  match m with
  | Ok a => k a
  | Raise e => Raise e
  end.

Notation "x <- m ;; k" := (py_bind m (fun x => k))
  (at level 61, m at next level, right associativity).

(** ** Comparisons of floats, as booleans *)

Definition Rgtb (a b : R) : bool := if Rlt_dec b a then true else false.
Definition Reqb (a b : R) : bool := if Req_dec_T a b then true else false.

(** ** Insertion-ordered dictionaries *)

Section Dict.
Context {K V : Type}.
Variable keq : K -> K -> bool.

Definition dict : Type := list (K * V).

Fixpoint dict_get (d : dict) (k : K) : option V :=
  match d with
  | [] => None
  | (k', v) :: r => if keq k' k then Some v else dict_get r k
  end.

(** [k in d] *)
Definition dict_mem (d : dict) (k : K) : bool :=
  match dict_get d k with
  | Some _ => true
  | None => false
  end.

(** [d.get(k, dflt)] *)
Definition dict_get_default (d : dict) (k : K) (dflt : V) : V :=
  match dict_get d k with
  | Some v => v
  | None => dflt
  end.

(** [d[k] = v] *)
Fixpoint dict_set (d : dict) (k : K) (v : V) : dict :=
  match d with
  | [] => [(k, v)]
  | (k', v') :: r =>
      if keq k' k then (k', v) :: r else (k', v') :: dict_set r k v
  end.

Definition dict_keys (d : dict) : list K := map fst d.
End Dict.

Arguments dict K V : clear implicits.

(** ** Numeric built-ins *)

(** [math.pow(10, x)] *)
Definition math_pow10 (x : R) : R := Rpower 10 x.

(** [math.log10(x)]: a [ValueError] outside the domain. *)
Definition math_log10 (x : R) : py R :=
  if Rlt_dec 0 x then Ok (ln x / ln 10) else Raise ValueError.

(** [max(l)] on a list: a [ValueError] on the empty list. *)
Definition py_max (l : list R) : py R :=
  match l with
  | [] => Raise ValueError
  | x :: r => Ok (fold_left (fun m y => if Rgtb y m then y else m) r x)
  end.

(** [sum(l)] *)
Definition py_sum (l : list R) : R := fold_left Rplus l 0.

(** [len(l)], as the float it becomes under [/]. *)
Definition py_len (l : list R) : R := INR (List.length l).

(** ** Scan aggregation ([perform_scan], lines 206-230) *)

(** One raw reading of the adapter: [(ssid, signal_strength)]. *)
Definition Reading : Type := (string * R)%type.

(** [mergeDictionary(dict1, dict2)] (lines 190-194).  The source iterates
    over a [set] of keys, whose order is unspecified; here the keys of
    [dict1] come first, then the keys only [dict2] has. *)
Definition mergeDictionary (dict1 dict2 : dict string (list R))
  : dict string (list R) :=
  fold_left
    (fun merged key =>
       dict_set String.eqb merged key
         (dict_get_default String.eqb dict1 key []
          ++ dict_get_default String.eqb dict2 key []))
    (dict_keys dict1 ++ dict_keys dict2) [].

(** Line 219: dBm to watts, over the reals: the [OverflowError] of
    [math.pow] for very large readings, the underflow to zero for very
    small ones and the rounding are outside the model. *)
Definition signal_watts (signal_strength : R) : R :=
  math_pow10 (signal_strength / 10) / 1000.

(** The body of the loop over [access_points] (lines 216-223).
    [ssid_signals] is the dictionary of line 206, [ssid_signals_scan] the
    one of line 211.  The condition of line 222 is
    [not ssid in ssid_signals or signal_watts > max(ssid_signals_scan[ssid])];
    [or] evaluates its right operand only when the left one is false. *)
Definition scan_reading (ssid_signals ssid_signals_scan : dict string (list R))
  (ap : Reading) : py (dict string (list R)) :=
  let '(ssid, signal_strength) := ap in
  let scan1 :=
    if negb (dict_mem String.eqb ssid_signals_scan ssid)
    then dict_set String.eqb ssid_signals_scan ssid []
    else ssid_signals_scan in
  let w := signal_watts signal_strength in
  keep <- (if negb (dict_mem String.eqb ssid_signals ssid) then Ok true
           else m <- py_max (dict_get_default String.eqb scan1 ssid []) ;;
                Ok (Rgtb w m)) ;;
  Ok (if keep : bool then dict_set String.eqb scan1 ssid [w] else scan1).

(** The loop over [access_points] of one pass. *)
Fixpoint scan_pass (ssid_signals ssid_signals_scan : dict string (list R))
  (access_points : list Reading) : py (dict string (list R)) :=
  match access_points with
  | [] => Ok ssid_signals_scan
  | ap :: rest =>
      scan1 <- scan_reading ssid_signals ssid_signals_scan ap ;;
      scan_pass ssid_signals scan1 rest
  end.

(** The loop [for i in range(3)] (lines 208-225), run over the pass
    numbers [passes].  [scan_access_points i] is what the adapter returns
    in pass [i].  Line 225 calls [mergeDictionary] and drops what it
    returns, so [ssid_signals] goes unchanged into the next pass; the
    loop's result is the pair of [ssid_signals] and of the
    [ssid_signals_scan] of the last pass run. *)
Fixpoint scan_loop (scan_access_points : nat -> list Reading)
  (ssid_signals ssid_signals_scan : dict string (list R))
  (passes : list nat) : py (dict string (list R) * dict string (list R)) :=
  match passes with
  | [] => Ok (ssid_signals, ssid_signals_scan)
  | i :: rest =>
      scan <- scan_pass ssid_signals [] (scan_access_points i) ;;
      let _ := mergeDictionary ssid_signals scan in
      scan_loop scan_access_points ssid_signals scan rest
  end.

(** Line 229, one value: [10 * math.log10((sum(signals) / len(signals)) * 1000)]. *)
Definition average_dbm (signals : list R) : py R :=
  l <- math_log10 ((py_sum signals / py_len signals) * 1000) ;;
  Ok (10 * l).

(** The dictionary comprehension of lines 228-230, over the items of its
    source dictionary; [if signals] skips the empty lists. *)
Fixpoint averaged_signals_from (items : list (string * list R))
  (acc : dict string R) : py (dict string R) :=
  match items with
  | [] => Ok acc
  | (ssid, signals) :: rest =>
      match signals with
      | [] => averaged_signals_from rest acc
      | _ :: _ =>
          v <- average_dbm signals ;;
          averaged_signals_from rest (dict_set String.eqb acc ssid v)
      end
  end.

(** Lines 206-230 together: the three passes, then the averages, which the
    source takes from [ssid_signals_scan].  The waits of lines 212 and 258
    are left out: [scan_access_points i] is what pass [i] has read once
    they have returned. *)
Definition aggregate_scans (scan_access_points : nat -> list Reading)
  : py (dict string R) :=
  r <- scan_loop scan_access_points [] [] [0%nat; 1%nat; 2%nat] ;;
  let '(_, ssid_signals_scan) := r in
  averaged_signals_from ssid_signals_scan [].

(** ** Measurement store ([perform_scan], lines 233-241) *)

(** An element of [self.measurements]: [(x, y, ssid, signal_strength)]. *)
Definition Measurement : Type := (Z * Z * string * R)%type.

Definition m_x (m : Measurement) : Z := fst (fst (fst m)).
Definition m_y (m : Measurement) : Z := snd (fst (fst m)).
Definition m_ssid (m : Measurement) : string := snd (fst m).
Definition m_strength (m : Measurement) : R := snd m.

(** [m[0] == x and m[1] == y and m[2] == ssid] *)
Definition same_key (x y : Z) (ssid : string) (m : Measurement) : bool :=
  Z.eqb (m_x m) x && Z.eqb (m_y m) y && String.eqb (m_ssid m) ssid.

(** Tuple equality, as [list.remove] uses it. *)
Definition measurement_eqb (a b : Measurement) : bool :=
  Z.eqb (m_x a) (m_x b) && Z.eqb (m_y a) (m_y b)
  && String.eqb (m_ssid a) (m_ssid b) && Reqb (m_strength a) (m_strength b).

(** [l.remove(m)]: drops the first element equal to [m], a [ValueError]
    when there is none. *)
Fixpoint list_remove (m : Measurement) (l : list Measurement)
  : py (list Measurement) :=
  match l with
  | [] => Raise ValueError
  | a :: r =>
      if measurement_eqb a m then Ok r
      else r' <- list_remove m r ;; Ok (a :: r')
  end.

(** [next((m for m in self.measurements if ...), None)] (line 235). *)
Definition existing_measurement (x y : Z) (ssid : string)
  (measurements : list Measurement) : option Measurement :=
  find (same_key x y ssid) measurements.

(** The body of the loop of lines 233-241, for one averaged value: the
    store's replace-if-stronger update.  A 4-tuple is always true under
    [if existing_measurement:]. *)
Definition upsert (x y : Z) (ssid : string) (avg_signal_strength : R)
  (measurements : list Measurement) : py (list Measurement) :=
  match existing_measurement x y ssid measurements with
  | Some existing =>
      if Rgtb avg_signal_strength (m_strength existing) then
        removed <- list_remove existing measurements ;;
        Ok (removed ++ [(x, y, ssid, avg_signal_strength)])
      else Ok measurements
  | None => Ok (measurements ++ [(x, y, ssid, avg_signal_strength)])
  end.

(** The loop of lines 233-241 over [averaged_signals.items()]. *)
Fixpoint update_measurements (x y : Z) (items : list (string * R))
  (measurements : list Measurement) : py (list Measurement) :=
  match items with
  | [] => Ok measurements
  | (ssid, avg) :: rest =>
      ms <- upsert x y ssid avg measurements ;;
      update_measurements x y rest ms
  end.

(** The value the store's own lookup finds for a key. *)
Definition stored_value (x y : Z) (ssid : string)
  (measurements : list Measurement) : option R :=
  option_map m_strength (existing_measurement x y ssid measurements).

(** The keys of the store, in order. *)
Definition store_keys (measurements : list Measurement)
  : list (Z * Z * string) := map fst measurements.

(** The store's invariant: no two measurements share a key. *)
Definition unique_keys (measurements : list Measurement) : Prop :=
  NoDup (store_keys measurements).

(** ** Application state *)

(** What a [numpy.float64] division gives: a number, or [inf]/[nan] when
    the divisor is zero (NumPy warns and does not raise). *)
Inductive np_float64 : Type :=
| Finite (r : R)
| NonFinite.

Definition np_true_divide (a b : R) : np_float64 :=
  if Req_dec_T b 0 then NonFinite else Finite (a / b).

(** The attributes of [WiFiHeatmapApp] that hold data of the core.
    [interface] is whether an adapter is selected; [pixels_per_meter] is
    [None] until calibration. *)
Record App : Type := mkApp {
  map_image_path : option string;
  measurements : list Measurement;
  interface : bool;
  enabled_scans : bool;
  calibration_points : list (Z * Z);
  pixels_per_meter : option np_float64;
  measurement_radius : R;
  is_calibrating : bool
}.

(** [__init__] (lines 27-38). *)
Definition init_app : App :=
  mkApp None [] false false [] None 5 false.

Definition set_measurements (ms : list Measurement) (s : App) : App :=
  mkApp (map_image_path s) ms (interface s) (enabled_scans s)
    (calibration_points s) (pixels_per_meter s) (measurement_radius s)
    (is_calibrating s).

Definition set_enabled_scans (b : bool) (s : App) : App :=
  mkApp (map_image_path s) (measurements s) (interface s) b
    (calibration_points s) (pixels_per_meter s) (measurement_radius s)
    (is_calibrating s).

Definition set_calibration_points (pts : list (Z * Z)) (s : App) : App :=
  mkApp (map_image_path s) (measurements s) (interface s) (enabled_scans s)
    pts (pixels_per_meter s) (measurement_radius s) (is_calibrating s).

Definition set_pixels_per_meter (p : option np_float64) (s : App) : App :=
  mkApp (map_image_path s) (measurements s) (interface s) (enabled_scans s)
    (calibration_points s) p (measurement_radius s) (is_calibrating s).

Definition set_is_calibrating (b : bool) (s : App) : App :=
  mkApp (map_image_path s) (measurements s) (interface s) (enabled_scans s)
    (calibration_points s) (pixels_per_meter s) (measurement_radius s) b.

Definition set_map_image_path (p : option string) (s : App) : App :=
  mkApp p (measurements s) (interface s) (enabled_scans s)
    (calibration_points s) (pixels_per_meter s) (measurement_radius s)
    (is_calibrating s).

(** ** Calibration (lines 99-128 and 155-182) *)

(** [start_calibration] *)
Definition start_calibration (s : App) : App :=
  set_calibration_points [] (set_is_calibrating true s).

(** [load_map]; [file_path] is what the file dialog returns, the empty
    string when it was cancelled. *)
Definition load_map (file_path : string) (s : App) : App :=
  if String.eqb file_path EmptyString then s
  else start_calibration (set_map_image_path (Some file_path) s).

(** [np.sqrt((p2[0] - p1[0])**2 + (p2[1] - p1[1])**2)] *)
Definition pixel_distance (p1 p2 : Z * Z) : R :=
  sqrt (IZR ((fst p2 - fst p1) ^ 2 + (snd p2 - snd p1) ^ 2)).

(** [calculate_pixels_per_meter] *)
Definition calculate_pixels_per_meter (distance_meters : R) (s : App) : App :=
  match calibration_points s with
  | [p1; p2] =>
      set_pixels_per_meter
        (Some (np_true_divide (pixel_distance p1 p2) distance_meters)) s
  | _ => s
  end.

(** [handle_calibration_click].  [dialog] is the answer of the distance
    dialog, should it be opened: [Some distance] when confirmed, [None]
    when cancelled. *)
Definition handle_calibration_click (dialog : option R) (x y : Z) (s : App)
  : App :=
  let s1 := set_calibration_points (calibration_points s ++ [(x, y)]) s in
  match List.length (calibration_points s1) with
  | 1%nat => s1
  | 2%nat =>
      match dialog with
      | Some distance =>
          set_enabled_scans true
            (set_is_calibrating false (calculate_pixels_per_meter distance s1))
      | None => s1
      end
  | _ => s1
  end.

(** ** The scan handler and the click handler *)

(** [perform_scan]: nothing without an adapter; otherwise the three
    passes, the averages and the update of the store.  The waits of
    lines 212, 243 and 258 and the value [False] that [enabled_scans]
    holds in between are left out: this is the scan whose waits have
    returned. *)
Definition perform_scan (scan_access_points : nat -> list Reading)
  (x y : Z) (s : App) : py App :=
  if negb (interface s) then Ok s
  else
    averaged_signals <- aggregate_scans scan_access_points ;;
    ms <- update_measurements x y averaged_signals (measurements s) ;;
    Ok (set_enabled_scans true (set_measurements ms s)).

(** [record_click]; [left_button] is [event.button() == Qt.LeftButton] and
    [(x, y)] the scene position of the click. *)
Definition record_click (dialog : option R)
  (scan_access_points : nat -> list Reading) (left_button : bool)
  (x y : Z) (s : App) : py App :=
  match map_image_path s with
  | None => Ok s
  | Some path =>
      if String.eqb path EmptyString then Ok s
      else if is_calibrating s then Ok (handle_calibration_click dialog x y s)
      else if left_button && enabled_scans s
           then perform_scan scan_access_points x y s
           else Ok s
  end.

(** ** Sample query ([generate_heatmap], lines 278-288) *)

Definition location_eqb (a b : Z * Z) : bool :=
  Z.eqb (fst a) (fst b) && Z.eqb (snd a) (snd b).

(** The body of the loop of lines 280-284.  [m[3] > filtered[key]] is
    reached only when the key is present. *)
Definition filter_step (ssid : string) (filtered : dict (Z * Z) R)
  (m : Measurement) : dict (Z * Z) R :=
  if String.eqb (m_ssid m) ssid then
    let key := (m_x m, m_y m) in
    match dict_get location_eqb filtered key with
    | None => dict_set location_eqb filtered key (m_strength m)
    | Some old =>
        if Rgtb (m_strength m) old
        then dict_set location_eqb filtered key (m_strength m)
        else filtered
    end
  else filtered.

(** Lines 279-284: the samples of one network, one per location. *)
Definition filtered_measurements (ssid : string)
  (measurements : list Measurement) : dict (Z * Z) R :=
  fold_left (filter_step ssid) measurements [].

(** Lines 286-288: [zip( *[...])] into three tuples; unpacking fails on
    no sample at all. *)
Definition sample_coords (filtered : dict (Z * Z) R)
  : py (list Z * list Z * list R) :=
  match filtered with
  | [] => Raise ValueError
  | _ :: _ =>
      Ok (map (fun e => fst (fst e)) filtered,
          map (fun e => snd (fst e)) filtered,
          map snd filtered)
  end.

(** ** Interpolation grid and field ([plot_heatmap], lines 297-309) *)

(** [ceil] of a float, as an integer. *)
Definition np_ceil (x : R) : Z := (- Int_part (- x))%Z.

(** [np.arange(start, stop, step)] on floats: [ceil((stop - start) / step)]
    points [start + i * step], none when that count is not positive; a
    zero step is refused with an exception.  This is the lattice in exact
    arithmetic; [F64.np_arange] below is the one NumPy computes, with the
    quotient and the products rounded. *)
Definition np_arange (start stop step : R) : py (list R) :=
  if Req_dec_T step 0 then Raise ValueError
  else
    Ok (map (fun i => start + INR i * step)
          (seq 0 (Z.to_nat (np_ceil ((stop - start) / step))))).

(** [np.meshgrid(x_grid, y_grid)]: one row per element of [y_grid], one
    column per element of [x_grid]. *)
Definition np_meshgrid (x_grid y_grid : list R)
  : list (list R) * list (list R) :=
  (map (fun _ => x_grid) y_grid, map (fun y => map (fun _ => y) x_grid) y_grid).

(** Element-wise call of the interpolant on two arrays of one shape. *)
Definition rbf_call (rbf : R -> R -> R) (X Y : list (list R))
  : list (list R) :=
  map (fun row => map (fun xy => rbf (fst xy) (snd xy))
                    (combine (fst row) (snd row)))
      (combine X Y).

(** Element-wise [-Z]. *)
Definition np_negative (Z : list (list R)) : list (list R) :=
  map (map Ropp) Z.

Section Heatmap.
(** [scipy.interpolate.Rbf(x, y, d, function='gaussian', epsilon=e)]:
    the fitted interpolant, or the exception of a failed fit.  The
    library is not part of the repository. *)
Variable Rbf : list R -> list R -> list R -> R -> py (R -> R -> R).

(** Lines 298-301: the lattice.  [width] and [height] are the size of
    the map image; [radius] and [ppm] stand for
    [self.measurement_radius] and a finite [self.pixels_per_meter]. *)
Definition interpolation_grid (width height : Z) (radius ppm : R)
  : py (list R * list R) :=
  let grid_step := radius * ppm in
  x_grid <- np_arange 0 (IZR width) grid_step ;;
  y_grid <- np_arange 0 (IZR height) grid_step ;;
  Ok (x_grid, y_grid).

(** Lines 304-306: the raw values [rbf(X, Y)]. *)
Definition raw_field (width height : Z) (radius ppm : R)
  (x_coords y_coords : list Z) (strengths : list R)
  : py (list (list R)) :=
  g <- interpolation_grid width height radius ppm ;;
  let '(X, Y) := np_meshgrid (fst g) (snd g) in
  rbf <- Rbf (map IZR x_coords) (map IZR y_coords) strengths
           (radius * ppm) ;;
  Ok (rbf_call rbf X Y).

(** [plot_heatmap] up to line 309: the array handed to [imshow]. *)
Definition plot_heatmap (width height : Z) (radius ppm : R)
  (x_coords y_coords : list Z) (strengths : list R)
  : py (list (list R)) :=
  Z <- raw_field width height radius ppm x_coords y_coords strengths ;;
  Ok (np_negative Z).
End Heatmap.

(** ** The other handlers *)

Definition set_interface (b : bool) (s : App) : App :=
  mkApp (map_image_path s) (measurements s) b (enabled_scans s)
    (calibration_points s) (pixels_per_meter s) (measurement_radius s)
    (is_calibrating s).

Definition set_radius_field (r : R) (s : App) : App :=
  mkApp (map_image_path s) (measurements s) (interface s) (enabled_scans s)
    (calibration_points s) (pixels_per_meter s) r (is_calibrating s).

(** [select_interface] (lines 81-97).  [interfaces] are the names of the
    adapters found, [dialog] the name picked, [None] when the dialog was
    cancelled.  The attribute is assigned whatever [next(..., None)]
    finds, so a name that is not in the list unselects the adapter. *)
Definition select_interface (interfaces : list string)
  (dialog : option string) (s : App) : App :=
  match interfaces with
  | [] => s
  | _ :: _ =>
      match dialog with
      | Some name =>
          if String.eqb name EmptyString then s
          else set_interface (existsb (String.eqb name) interfaces) s
      | None => s
      end
  end.

(** [set_measurement_radius] (lines 114-119); [dialog] is the radius
    entered, [None] when the dialog was cancelled. *)
Definition set_measurement_radius (dialog : option R) (s : App) : App :=
  match dialog with
  | Some radius => set_radius_field radius s
  | None => s
  end.

(** [toggle_scan] (lines 387-393). *)
Definition toggle_scan (s : App) : App :=
  if enabled_scans s then set_enabled_scans false s
  else set_enabled_scans true s.

(** The loop of [scan_access_points] (lines 261-266) over the results of
    the adapter: an empty name becomes ["<Hidden SSID>"]. *)
Definition scan_access_points (results : list (string * R)) : list Reading :=
  map (fun result =>
         (if String.eqb (fst result) EmptyString then "<Hidden SSID>"%string
          else fst result,
          snd result))
      results.

(** Lines 269-270: the distinct network names of the store.  The source
    goes through a [set], whose order is unspecified; here the names come
    in the order of their last measurement. *)
Definition ssid_choices (measurements : list Measurement) : list string :=
  nodup string_dec (map m_ssid measurements).

(** [generate_heatmap] up to its call of [plot_heatmap] (lines 268-290):
    [None] when it returns without plotting, otherwise the arguments it
    hands to [plot_heatmap].  [dialog] is the selection dialog: the name
    picked among the choices, [None] when cancelled. *)
Definition generate_heatmap (dialog : list string -> option string) (s : App)
  : py (option (list Z * list Z * list R * string)) :=
  match ssid_choices (measurements s) with
  | [] => Ok None
  | choices =>
      match dialog choices with
      | Some ssid =>
          if String.eqb ssid EmptyString then Ok None
          else
            c <- sample_coords (filtered_measurements ssid (measurements s)) ;;
            Ok (Some (c, ssid))
      | None => Ok None
      end
  end.

(** ** The handlers as the window wires them (lines 56-79) *)

(** One user action, with what the dialogs and the adapter answer during
    its handler.  Whether a button is enabled is not modelled: every
    action is accepted in every state. *)
Inductive Event : Type :=
| SelectInterface (interfaces : list string) (dialog : option string)
| LoadMap (file_path : string)
| SetMeasurementRadius (dialog : option R)
| ToggleScan
| Click (dialog : option R) (scans : nat -> list Reading)
        (left_button : bool) (x y : Z).

Definition dispatch (e : Event) (s : App) : py App :=
  match e with
  | SelectInterface interfaces dialog => Ok (select_interface interfaces dialog s)
  | LoadMap file_path => Ok (load_map file_path s)
  | SetMeasurementRadius dialog => Ok (set_measurement_radius dialog s)
  | ToggleScan => Ok (toggle_scan s)
  | Click dialog scans left_button x y =>
      record_click dialog scans left_button x y s
  end.

Fixpoint run_events (es : list Event) (s : App) : py App :=
  match es with
  | [] => Ok s
  | e :: rest => s1 <- dispatch e s ;; run_events rest s1
  end.

(** The ranges the two number dialogs are opened with (lines 115-117 and
    170-172): a radius within 1.0 and 100.0, a distance within 0.1 and
    1000.0. *)
Definition dialog_in_range (e : Event) : Prop :=
  match e with
  | SetMeasurementRadius (Some radius) => 1 <= radius <= 100
  | Click (Some distance) _ _ _ _ => / 10 <= distance <= 1000
  | _ => True
  end.

(** What holds of the state after every sequence of actions: the store
    has distinct keys; measurements are only there once a scale is; out
    of calibration with a map loaded the scale is set; a scale that is
    set is a finite number, not negative; the radius is within the range
    of its dialog; and the path of the map is never the empty string. *)
Definition session_invariant (s : App) : Prop :=
  unique_keys (measurements s)
  /\ (measurements s <> [] -> pixels_per_meter s <> None)
  /\ (is_calibrating s = false -> map_image_path s <> None ->
      pixels_per_meter s <> None)
  /\ (forall p, pixels_per_meter s = Some p -> exists r, p = Finite r /\ 0 <= r)
  /\ 1 <= measurement_radius s <= 100
  /\ map_image_path s <> Some EmptyString.

(** ** The calibration and the grid in binary64 *)

(** The scale and the grid once more, on IEEE binary64 numbers (the
    primitive floats), so that the count and the points NumPy computes
    can be evaluated as the code computes them, roundings included.
    Square root, division and multiplication are the correctly rounded
    operations of the processor. *)
Module F64.
Import PrimFloat.

(** A Python [int] as a [float] (exact below 2^53 in absolute value). *)
Definition float_of_int (z : Z) : float :=
  if (z <? 0)%Z then opp (of_uint63 (Uint63.of_Z (- z)))
  else of_uint63 (Uint63.of_Z z).

(** The integer [ceil] of a finite float; none for an infinity or a NaN. *)
Definition ceil (x : float) : option Z :=
  match FloatOps.Prim2SF x with
  | SpecFloat.S754_zero _ => Some 0%Z
  | SpecFloat.S754_finite s m e =>
      Some (if (0 <=? e)%Z
            then (if s then - (Z.pos m * 2 ^ e) else Z.pos m * 2 ^ e)%Z
            else (if s then - (Z.pos m / 2 ^ (- e))
                  else (Z.pos m + 2 ^ (- e) - 1) / 2 ^ (- e))%Z)
  | _ => None
  end.

(** Lines 124 and 127: [np.sqrt] of the integer sum of squares, divided
    by the distance. *)
Definition pixel_distance (p1 p2 : Z * Z) : float :=
  sqrt (float_of_int ((fst p2 - fst p1) ^ 2 + (snd p2 - snd p1) ^ 2)).

Definition pixels_per_meter (p1 p2 : Z * Z) (distance_meters : float) : float :=
  div (pixel_distance p1 p2) distance_meters.

(** The [i]-th element NumPy writes for [np.arange(0, stop, step)]: the
    start, then start plus step, then [start + i * delta] with [delta]
    the difference of the first two elements. *)
Definition arange_point (step : float) (i : nat) : float :=
  match i with
  | O => float_of_int 0
  | S O => add (float_of_int 0) step
  | _ =>
      add (float_of_int 0)
        (mul (float_of_int (Z.of_nat i))
           (sub (add (float_of_int 0) step) (float_of_int 0)))
  end.

(** [np.arange(0, stop, step)] with an integer [stop] and a float [step]:
    the length is the [ceil] of the float quotient [(stop - 0) / step],
    nothing when it is not positive; a quotient that is not finite (a
    step of zero) or a length beyond the largest index is refused.  A
    grid too long for the memory of the machine is not modelled. *)
Definition np_arange (stop : Z) (step : float) : py (list float) :=
  match ceil (div (float_of_int (stop - 0)) step) with
  | None => Raise ValueError
  | Some n =>
      if (2 ^ 63 <=? n)%Z then Raise ValueError
      else Ok (map (arange_point step) (seq 0 (Z.to_nat n)))
  end.

(** Lines 298-300. *)
Definition interpolation_grid (width height : Z) (radius ppm : float)
  : py (list float * list float) :=
  let grid_step := mul radius ppm in
  x_grid <- np_arange width grid_step ;;
  y_grid <- np_arange height grid_step ;;
  Ok (x_grid, y_grid).
End F64.

(** * Properties *)

(** ** The dBm / watt conversions *)

Lemma ln_10_pos : 0 < ln 10.
Proof.
  rewrite <- ln_1. apply ln_increasing; lra.
Qed.

Lemma signal_watts_pos (d : R) : 0 < signal_watts d.
Proof.
  unfold signal_watts, math_pow10, Rpower.
  apply Rdiv_lt_0_compat; [apply exp_pos | lra].
Qed.

Lemma signal_watts_increasing (a b : R) :
  a < b -> signal_watts a < signal_watts b.
Proof.
  intros Hab. unfold signal_watts, math_pow10.
  apply Rmult_lt_compat_r; [lra |].
  apply Rpower_lt; lra.
Qed.

Lemma math_log10_pos (x : R) : 0 < x -> math_log10 x = Ok (ln x / ln 10).
Proof.
  intros Hx. unfold math_log10.
  destruct (Rlt_dec 0 x) as [_ | Hn]; [reflexivity | contradiction].
Qed.

(** The average of a single watt value is the dBm value it came from. *)
Lemma average_dbm_single (d : R) : average_dbm [signal_watts d] = Ok d.
Proof.
  unfold average_dbm, py_sum, py_len. simpl fold_left. simpl List.length.
  assert (Hw : (0 + signal_watts d) / INR 1 * 1000 = Rpower 10 (d / 10)).
  { unfold signal_watts, math_pow10. simpl INR. field. }
  rewrite Hw.
  rewrite math_log10_pos by (unfold Rpower; apply exp_pos).
  unfold py_bind. f_equal.
  unfold Rpower. rewrite ln_exp.
  pose proof ln_10_pos. field. lra.
Qed.

(** ** The scan loop as the source runs it *)

(** With [ssid_signals] empty, line 222 holds for every reading, and the
    reading overwrites what the pass had for its name. *)
Lemma scan_reading_empty (scan : dict string (list R)) (ssid : string)
  (signal_strength : R) :
  scan_reading [] scan (ssid, signal_strength)
  = Ok (dict_set String.eqb
          (if negb (dict_mem String.eqb scan ssid)
           then dict_set String.eqb scan ssid [] else scan)
          ssid [signal_watts signal_strength]).
Proof. reflexivity. Qed.

Lemma scan_pass_empty_total (aps : list Reading) :
  forall scan, exists scan', scan_pass [] scan aps = Ok scan'.
Proof.
  induction aps as [| [ssid sg] rest IH]; intros scan; simpl.
  - eexists; reflexivity.
  - apply IH.
Qed.

(** [ssid_signals] never changes in the loop. *)
Lemma scan_loop_ssid_signals f sig scan passes sig' scan' :
  scan_loop f sig scan passes = Ok (sig', scan') -> sig' = sig.
Proof.
  revert scan. induction passes as [| i rest IH]; intros scan; simpl.
  - intros H; inversion H; reflexivity.
  - destruct (scan_pass sig [] (f i)) as [s1 | e]; simpl; [apply IH | discriminate].
Qed.

(** The loop's [ssid_signals_scan] is the one of the last pass alone. *)
Lemma scan_loop_last f scan passes i :
  scan_loop f [] scan (passes ++ [i])
  = s <- scan_pass [] [] (f i) ;; Ok ([], s).
Proof.
  revert scan. induction passes as [| j rest IH]; intros scan; simpl.
  - destruct (scan_pass [] [] (f i)); reflexivity.
  - destruct (scan_pass_empty_total (f j) []) as [s1 H1]. rewrite H1. simpl.
    apply IH.
Qed.

(** The aggregate depends on the third pass only. *)
Lemma aggregate_scans_third_pass (f : nat -> list Reading) :
  aggregate_scans f
  = s <- scan_pass [] [] (f 2%nat) ;; averaged_signals_from s [].
Proof.
  unfold aggregate_scans.
  change [0%nat; 1%nat; 2%nat] with ([0%nat; 1%nat] ++ [2%nat]).
  rewrite scan_loop_last.
  destruct (scan_pass [] [] (f 2%nat)); reflexivity.
Qed.

(** ** Aggregation across and within passes *)

(** C1 (the code departs from the claim).  The claim: each network's
    output is the average, in watts, over all the passes in which it
    appeared.  The code: the result of [mergeDictionary] is dropped, and
    the averages are taken from the dictionary of the third pass alone.
    On the passes [A:-40, B:-50], [A:-50], [A:-60] the output is [A: -60]
    (network B, seen in the first pass only, is missing), while the
    formula of the claim over A's three watt values gives a value above
    -60. *)
Theorem aggregate_scans_uses_last_pass_only :
  aggregate_scans
    (fun i => nth i [ [("A"%string, -40); ("B"%string, -50)];
                      [("A"%string, -50)];
                      [("A"%string, -60)] ] [])
  = Ok [("A"%string, -60)]
  /\ exists v,
       average_dbm [signal_watts (-40); signal_watts (-50); signal_watts (-60)]
       = Ok v /\ -60 < v.
Proof.
  split.
  - rewrite aggregate_scans_third_pass. simpl nth.
    unfold scan_pass. rewrite scan_reading_empty. simpl.
    rewrite average_dbm_single. reflexivity.
  - pose proof (signal_watts_increasing (-60) (-40) ltac:(lra)) as H40.
    pose proof (signal_watts_increasing (-60) (-50) ltac:(lra)) as H50.
    pose proof (signal_watts_pos (-60)) as Hpos.
    pose proof ln_10_pos as Hln.
    set (m := (py_sum [signal_watts (-40); signal_watts (-50); signal_watts (-60)]
               / py_len [signal_watts (-40); signal_watts (-50); signal_watts (-60)])
              * 1000).
    assert (Hm : Rpower 10 (-60 / 10) < m).
    { unfold m, py_sum, py_len. simpl fold_left. simpl List.length.
      replace (INR 3) with 3 by (simpl; lra).
      replace (Rpower 10 (-60 / 10)) with (signal_watts (-60) * 1000)
        by (unfold signal_watts, math_pow10; field).
      lra. }
    assert (Hm0 : 0 < m).
    { eapply Rlt_trans; [| exact Hm]. unfold Rpower. apply exp_pos. }
    exists (10 * (ln m / ln 10)). split.
    + unfold average_dbm. fold m. rewrite (math_log10_pos m Hm0). reflexivity.
    + assert (Hl : -60 / 10 * ln 10 < ln m).
      { replace (-60 / 10 * ln 10) with (ln (Rpower 10 (-60 / 10)))
          by (unfold Rpower; apply ln_exp).
        apply ln_increasing; [unfold Rpower; apply exp_pos | exact Hm]. }
      assert (Hq : -60 / 10 < ln m / ln 10).
      { apply Rmult_lt_reg_r with (ln 10); [exact Hln |].
        replace (ln m / ln 10 * ln 10) with (ln m) by (field; lra).
        exact Hl. }
      lra.
Qed.

(** C4 (the code departs from the claim).  The claim: within one pass the
    strongest reading of a network is kept.  The code: [ssid_signals]
    stays empty, so [not ssid in ssid_signals] holds for every reading and
    each reading overwrites the one before; the comparison in watts is
    never reached.  On the pass [A:-40, A:-70] the pass keeps the watts of
    -70, the weaker reading, and three such passes yield [A: -70]. *)
Theorem scan_pass_keeps_last_reading :
  scan_pass [] [] [("A"%string, -40); ("A"%string, -70)]
  = Ok [("A"%string, [signal_watts (-70)])]
  /\ signal_watts (-70) < signal_watts (-40)
  /\ aggregate_scans (fun _ => [("A"%string, -40); ("A"%string, -70)])
     = Ok [("A"%string, -70)].
Proof.
  split; [| split].
  - unfold scan_pass. rewrite !scan_reading_empty. reflexivity.
  - apply signal_watts_increasing. lra.
  - rewrite aggregate_scans_third_pass.
    unfold scan_pass. rewrite !scan_reading_empty. simpl.
    rewrite average_dbm_single. reflexivity.
Qed.

(** ** Dictionaries *)

Section DictFacts.
Context {K V : Type}.
Variable keq : K -> K -> bool.
Hypothesis keq_spec : forall a b, keq a b = true <-> a = b.

Lemma keq_refl (k : K) : keq k k = true.
Proof. apply keq_spec. reflexivity. Qed.

Lemma keq_neq (a b : K) : a <> b -> keq a b = false.
Proof.
  intros Hab. destruct (keq a b) eqn:E; [| reflexivity].
  apply keq_spec in E. contradiction.
Qed.

Lemma dict_get_set_same (d : dict K V) (k : K) (v : V) :
  dict_get keq (dict_set keq d k v) k = Some v.
Proof.
  induction d as [| [k' v'] r IH]; simpl.
  - rewrite keq_refl. reflexivity.
  - destruct (keq k' k) eqn:E; simpl; rewrite E; [reflexivity | exact IH].
Qed.

Lemma dict_get_set_other (d : dict K V) (k k0 : K) (v : V) :
  k <> k0 -> dict_get keq (dict_set keq d k v) k0 = dict_get keq d k0.
Proof.
  intros Hne. induction d as [| [k' v'] r IH]; simpl.
  - rewrite keq_neq by exact Hne. reflexivity.
  - destruct (keq k' k) eqn:E; simpl.
    + apply keq_spec in E. subst k'.
      rewrite keq_neq by exact Hne. reflexivity.
    + rewrite IH. reflexivity.
Qed.

Lemma dict_get_None (d : dict K V) (k : K) :
  dict_get keq d k = None <-> ~ In k (dict_keys d).
Proof.
  induction d as [| [k' v'] r IH]; simpl.
  - tauto.
  - destruct (keq k' k) eqn:E.
    + apply keq_spec in E. split; [discriminate | intros H; exfalso; auto].
    + rewrite IH. split.
      * intros Hn [Heq | Hin]; [| auto].
        subst. rewrite keq_refl in E. discriminate.
      * intros Hn Hin. apply Hn. right. exact Hin.
Qed.

Lemma dict_get_Some_In (d : dict K V) (k : K) (v : V) :
  dict_get keq d k = Some v -> In (k, v) d.
Proof.
  induction d as [| [k' v'] r IH]; simpl; [discriminate |].
  destruct (keq k' k) eqn:E.
  - apply keq_spec in E. intros H; inversion H; subst. left; reflexivity.
  - intros H. right. apply IH. exact H.
Qed.

Lemma dict_In_get (d : dict K V) (k : K) (v : V) :
  NoDup (dict_keys d) -> In (k, v) d -> dict_get keq d k = Some v.
Proof.
  induction d as [| [k' v'] r IH]; simpl; [tauto |].
  intros Hnd [Heq | Hin].
  - inversion Heq; subst. rewrite keq_refl. reflexivity.
  - inversion Hnd as [| ? ? Hnotin Hnd']; subst.
    destruct (keq k' k) eqn:E.
    + apply keq_spec in E. subst. exfalso. apply Hnotin.
      change k with (fst (k, v)). apply in_map. exact Hin.
    + apply IH; assumption.
Qed.

Lemma dict_keys_set_present (d : dict K V) (k : K) (v : V) :
  In k (dict_keys d) -> dict_keys (dict_set keq d k v) = dict_keys d.
Proof.
  induction d as [| [k' v'] r IH]; simpl; [tauto |].
  intros Hin. destruct (keq k' k) eqn:E; simpl; [reflexivity |].
  f_equal. apply IH. destruct Hin as [Heq | Hin]; [| exact Hin].
  subst. rewrite keq_refl in E. discriminate.
Qed.

Lemma dict_keys_set_absent (d : dict K V) (k : K) (v : V) :
  ~ In k (dict_keys d) -> dict_keys (dict_set keq d k v) = dict_keys d ++ [k].
Proof.
  induction d as [| [k' v'] r IH]; simpl; [reflexivity |].
  intros Hn. destruct (keq k' k) eqn:E; simpl.
  - apply keq_spec in E. exfalso. apply Hn. left. exact E.
  - f_equal. apply IH. intros Hin. apply Hn. right. exact Hin.
Qed.

Lemma dict_set_NoDup (d : dict K V) (k : K) (v : V) :
  NoDup (dict_keys d) -> NoDup (dict_keys (dict_set keq d k v)).
Proof.
  intros Hnd. destruct (dict_get keq d k) eqn:G.
  - rewrite dict_keys_set_present; [exact Hnd |].
    apply dict_get_Some_In in G.
    change k with (fst (k, v0)). apply in_map. exact G.
  - apply dict_get_None in G. rewrite dict_keys_set_absent by exact G.
    apply NoDup_app; [exact Hnd | constructor; [simpl; tauto | constructor] |].
    intros a Ha [Hb | []]. subst. contradiction.
Qed.
End DictFacts.

(** ** The sample query *)

Lemma location_eqb_spec (a b : Z * Z) : location_eqb a b = true <-> a = b.
Proof.
  destruct a as [ax ay], b as [bx by']. unfold location_eqb. simpl.
  rewrite andb_true_iff, !Z.eqb_eq. split.
  - intros [-> ->]. reflexivity.
  - intros H. inversion H. auto.
Qed.

Lemma Rgtb_true (a b : R) : Rgtb a b = true <-> b < a.
Proof.
  unfold Rgtb. destruct (Rlt_dec b a); split; auto; discriminate.
Qed.

Lemma Rgtb_false (a b : R) : Rgtb a b = false <-> a <= b.
Proof.
  unfold Rgtb. destruct (Rlt_dec b a); split; auto; try discriminate; lra.
Qed.

Lemma in_snoc_measurement (l : list Measurement) (m a : Measurement) :
  In a (l ++ [m]) <-> In a l \/ a = m.
Proof.
  rewrite in_app_iff. simpl. split; intros [H | H]; auto.
  - destruct H as [H | []]. auto.
Qed.

(** After any list of measurements: the keys of the dictionary are
    distinct, a location has an entry exactly when it has a measurement of
    the network, and the entry is the greatest of these. *)
Lemma filtered_measurements_spec (ssid : string) (ms : list Measurement) :
  NoDup (dict_keys (filtered_measurements ssid ms))
  /\ forall x y,
       match dict_get location_eqb (filtered_measurements ssid ms) (x, y) with
       | Some v =>
           In (x, y, ssid, v) ms
           /\ forall v', In (x, y, ssid, v') ms -> v' <= v
       | None => forall v', ~ In (x, y, ssid, v') ms
       end.
Proof.
  induction ms as [| m ms IH] using rev_ind.
  - split; [constructor | intros x y; simpl; auto].
  - destruct IH as [Hnd Hget].
    unfold filtered_measurements in *. rewrite fold_left_app. simpl.
    set (fm := fold_left (filter_step ssid) ms []) in *.
    destruct m as [[[mx my] s] mv].
    unfold filter_step, m_ssid, m_x, m_y, m_strength. simpl.
    destruct (String.eqb s ssid) eqn:Es.
    + apply String.eqb_eq in Es. subst s.
      assert (Hother : forall x y v',
                 (mx, my) <> (x, y) ->
                 (In (x, y, ssid, v') (ms ++ [(mx, my, ssid, mv)])
                  <-> In (x, y, ssid, v') ms)).
      { intros x y v' Hne. rewrite in_snoc_measurement. split; [| auto].
        intros [H | H]; [exact H |]. inversion H; subst. congruence. }
      assert (Hset : NoDup (dict_keys (dict_set location_eqb fm (mx, my) mv))
                /\ forall x y,
                    (forall v0, dict_get location_eqb fm (mx, my) = Some v0 -> v0 <= mv) ->
                    match dict_get location_eqb
                            (dict_set location_eqb fm (mx, my) mv) (x, y) with
                    | Some v =>
                        In (x, y, ssid, v) (ms ++ [(mx, my, ssid, mv)])
                        /\ forall v', In (x, y, ssid, v') (ms ++ [(mx, my, ssid, mv)])
                                      -> v' <= v
                    | None => forall v', ~ In (x, y, ssid, v') (ms ++ [(mx, my, ssid, mv)])
                    end).
      { split; [apply dict_set_NoDup; [apply location_eqb_spec | exact Hnd] |].
        intros x y Hold.
        destruct (location_eqb (mx, my) (x, y)) eqn:Ek.
        - apply location_eqb_spec in Ek. inversion Ek; subst x y.
          rewrite dict_get_set_same by apply location_eqb_spec.
          split; [apply in_snoc_measurement; auto |].
          intros v' Hin. apply in_snoc_measurement in Hin.
          destruct Hin as [Hin | Heq]; [| inversion Heq; lra].
          specialize (Hget mx my).
          destruct (dict_get location_eqb fm (mx, my)) as [v0 |].
          + destruct Hget as [_ Hmax].
            apply Rle_trans with v0; [apply Hmax; exact Hin | apply Hold; reflexivity].
          + exfalso. apply (Hget v'). exact Hin.
        - assert (Hne : (mx, my) <> (x, y)).
          { intros Heq. apply location_eqb_spec in Heq. congruence. }
          rewrite dict_get_set_other by (apply location_eqb_spec || exact Hne).
          specialize (Hget x y).
          destruct (dict_get location_eqb fm (x, y)) as [v0 |].
          + destruct Hget as [Hin Hmax]. split.
            * apply Hother; assumption.
            * intros v' Hv'. apply Hmax. apply (Hother x y v' Hne). exact Hv'.
          + intros v' Hv'. apply (Hget v'). apply (Hother x y v' Hne). exact Hv'. }
      destruct Hset as [Hnd' Hget'].
      destruct (dict_get location_eqb fm (mx, my)) as [old |] eqn:G.
      * destruct (Rgtb mv old) eqn:Eg.
        -- split; [exact Hnd' |]. intros x y. apply Hget'.
           intros v0 Hv0. inversion Hv0; subst. apply Rgtb_true in Eg. lra.
        -- split; [exact Hnd |]. intros x y.
           apply Rgtb_false in Eg.
           destruct (location_eqb (mx, my) (x, y)) eqn:Ek.
           ++ apply location_eqb_spec in Ek. inversion Ek; subst x y.
              rewrite G. specialize (Hget mx my). rewrite G in Hget.
              destruct Hget as [Hin Hmax]. split.
              ** apply in_snoc_measurement. auto.
              ** intros v' Hv'. apply in_snoc_measurement in Hv'.
                 destruct Hv' as [Hv' | Heq]; [auto | inversion Heq; lra].
           ++ assert (Hne : (mx, my) <> (x, y)).
              { intros Heq. apply location_eqb_spec in Heq. congruence. }
              specialize (Hget x y).
              destruct (dict_get location_eqb fm (x, y)) as [v0 |].
              ** destruct Hget as [Hin Hmax]. split.
                 --- apply Hother; assumption.
                 --- intros v' Hv'. apply Hmax. apply (Hother x y v' Hne). exact Hv'.
              ** intros v' Hv'. apply (Hget v'). apply (Hother x y v' Hne). exact Hv'.
      * split; [exact Hnd' |]. intros x y. apply Hget'. discriminate.
    + split; [exact Hnd |]. intros x y.
      assert (Hsame : forall v', In (x, y, ssid, v') (ms ++ [(mx, my, s, mv)])
                                 <-> In (x, y, ssid, v') ms).
      { intros v'. rewrite in_snoc_measurement. split; [| auto].
        intros [H | H]; [exact H |]. inversion H; subst.
        rewrite String.eqb_refl in Es. discriminate. }
      specialize (Hget x y).
      destruct (dict_get location_eqb fm (x, y)) as [v0 |].
      * destruct Hget as [Hin Hmax]. split.
        -- apply Hsame. exact Hin.
        -- intros v' Hv'. apply Hmax. apply Hsame. exact Hv'.
      * intros v' Hv'. apply (Hget v'). apply Hsame. exact Hv'.
Qed.

(** C8.  For every list of measurements and every network name, the
    samples of lines 279-284 hold one entry per location (the locations
    of the entries are pairwise distinct), every location with a
    measurement of that network has an entry, and the entry of a location
    is the strength of one of its measurements of that network and is at
    least as great as each of them: the maximum. *)
Theorem filtered_measurements_best_per_location
  (ssid : string) (ms : list Measurement) :
  NoDup (dict_keys (filtered_measurements ssid ms))
  /\ (forall x y v', In (x, y, ssid, v') ms ->
        exists v, In ((x, y), v) (filtered_measurements ssid ms))
  /\ (forall x y v, In ((x, y), v) (filtered_measurements ssid ms) ->
        In (x, y, ssid, v) ms
        /\ forall v', In (x, y, ssid, v') ms -> v' <= v).
Proof.
  destruct (filtered_measurements_spec ssid ms) as [Hnd Hget].
  split; [exact Hnd | split].
  - intros x y v' Hin. specialize (Hget x y).
    destruct (dict_get location_eqb (filtered_measurements ssid ms) (x, y))
      as [v |] eqn:G.
    + exists v. apply (dict_get_Some_In location_eqb location_eqb_spec). exact G.
    + exfalso. apply (Hget v'). exact Hin.
  - intros x y v Hin.
    apply (dict_In_get location_eqb location_eqb_spec _ _ _ Hnd) in Hin.
    specialize (Hget x y). rewrite Hin in Hget. exact Hget.
Qed.

(** ** The measurement store *)

Lemma same_key_spec (x y : Z) (ssid : string) (m : Measurement) :
  same_key x y ssid m = true <-> fst m = (x, y, ssid).
Proof.
  destruct m as [[[mx my] s] mv]. unfold same_key, m_x, m_y, m_ssid. simpl.
  rewrite !andb_true_iff, !Z.eqb_eq, String.eqb_eq. split.
  - intros [[-> ->] ->]. reflexivity.
  - intros H. inversion H. auto.
Qed.

Lemma same_key_false (x y : Z) (ssid : string) (m : Measurement) :
  same_key x y ssid m = false <-> fst m <> (x, y, ssid).
Proof.
  rewrite <- same_key_spec. destruct (same_key x y ssid m); split; congruence.
Qed.

Lemma Reqb_refl (a : R) : Reqb a a = true.
Proof. unfold Reqb. destruct (Req_dec_T a a); congruence. Qed.

Lemma measurement_eqb_refl (m : Measurement) : measurement_eqb m m = true.
Proof.
  unfold measurement_eqb.
  rewrite !Z.eqb_refl, String.eqb_refl, Reqb_refl. reflexivity.
Qed.

Lemma measurement_eqb_key (a b : Measurement) :
  measurement_eqb a b = true -> fst a = fst b.
Proof.
  destruct a as [[[ax ay] sa] va], b as [[[bx by'] sb] vb].
  unfold measurement_eqb, m_x, m_y, m_ssid. simpl.
  rewrite !andb_true_iff, !Z.eqb_eq, String.eqb_eq.
  intros [[[-> ->] ->] _]. reflexivity.
Qed.

Lemma find_app_skip {A : Type} (f : A -> bool) (l r : list A) :
  (forall a, In a l -> f a = false) -> find f (l ++ r) = find f r.
Proof.
  induction l as [| a l IH]; simpl; intros H; [reflexivity |].
  rewrite (H a) by auto. apply IH. intros b Hb. apply H. auto.
Qed.

Lemma find_none_iff {A : Type} (f : A -> bool) (l : list A) :
  find f l = None <-> forall a, In a l -> f a = false.
Proof.
  split; [apply find_none |].
  induction l as [| a l IH]; simpl; intros H; [reflexivity |].
  rewrite (H a) by auto. apply IH. intros b Hb. apply H. auto.
Qed.

(** The measurement found by line 235 is the first of its key, and
    [remove] takes out that very element. *)
Lemma list_remove_existing (x y : Z) (ssid : string)
  (ms : list Measurement) (e : Measurement) :
  existing_measurement x y ssid ms = Some e ->
  exists l1 l2,
    ms = l1 ++ e :: l2
    /\ (forall a, In a l1 -> same_key x y ssid a = false)
    /\ same_key x y ssid e = true
    /\ list_remove e ms = Ok (l1 ++ l2).
Proof.
  unfold existing_measurement.
  induction ms as [| a r IH]; simpl; [discriminate |].
  destruct (same_key x y ssid a) eqn:Ea.
  - intros H. inversion H; subst e.
    exists [], r. rewrite measurement_eqb_refl. simpl.
    repeat split; auto. intros b [].
  - intros H. destruct (IH H) as (l1 & l2 & Hr & Hl1 & He & Hrem).
    exists (a :: l1), l2. subst r. simpl. repeat split.
    + intros b [Hb | Hb]; [subst; exact Ea | auto].
    + exact He.
    + destruct (measurement_eqb a e) eqn:Eae.
      * apply measurement_eqb_key in Eae.
        apply same_key_spec in He. apply same_key_false in Ea. congruence.
      * rewrite Hrem. reflexivity.
Qed.

(** [upsert] never raises. *)
Lemma upsert_total (x y : Z) (ssid : string) (v : R) (ms : list Measurement) :
  exists ms', upsert x y ssid v ms = Ok ms'.
Proof.
  unfold upsert. destruct (existing_measurement x y ssid ms) as [e |] eqn:E.
  - destruct (Rgtb v (m_strength e)); [| eexists; reflexivity].
    destruct (list_remove_existing _ _ _ _ _ E) as (l1 & l2 & _ & _ & _ & Hrem).
    rewrite Hrem. simpl. eexists; reflexivity.
  - eexists; reflexivity.
Qed.

Lemma update_measurements_total (x y : Z) (items : list (string * R)) :
  forall ms, exists ms', update_measurements x y items ms = Ok ms'.
Proof.
  induction items as [| [ssid avg] rest IH]; intros ms; simpl.
  - eexists; reflexivity.
  - destruct (upsert_total x y ssid avg ms) as [ms1 H1]. rewrite H1. simpl.
    apply IH.
Qed.

Lemma store_keys_app (a b : list Measurement) :
  store_keys (a ++ b) = store_keys a ++ store_keys b.
Proof. apply map_app. Qed.

Lemma NoDup_snoc {A : Type} (l : list A) (k : A) :
  NoDup l -> ~ In k l -> NoDup (l ++ [k]).
Proof.
  intros Hnd Hk. apply NoDup_app; [exact Hnd | constructor; [simpl; tauto | constructor] |].
  intros a Ha [Hb | []]. subst. contradiction.
Qed.

Lemma not_in_keys_same_key (x y : Z) (ssid : string) (l : list Measurement) :
  ~ In (x, y, ssid) (store_keys l) <->
  forall a, In a l -> same_key x y ssid a = false.
Proof.
  unfold store_keys. split.
  - intros Hn a Ha. apply same_key_false. intros Heq. apply Hn.
    rewrite <- Heq. apply in_map. exact Ha.
  - intros H Hin. apply in_map_iff in Hin. destruct Hin as (a & Heq & Ha).
    apply H in Ha. apply same_key_false in Ha. contradiction.
Qed.

(** The shape of the store after an [upsert], for every list. *)
Lemma upsert_cases (x y : Z) (ssid : string) (v : R) (ms : list Measurement) :
  match existing_measurement x y ssid ms with
  | None => upsert x y ssid v ms = Ok (ms ++ [(x, y, ssid, v)])
  | Some e =>
      (m_strength e < v ->
       exists l1 l2,
         ms = l1 ++ e :: l2
         /\ (forall a, In a l1 -> same_key x y ssid a = false)
         /\ upsert x y ssid v ms = Ok (l1 ++ l2 ++ [(x, y, ssid, v)]))
      /\ (v <= m_strength e -> upsert x y ssid v ms = Ok ms)
  end.
Proof.
  unfold upsert. destruct (existing_measurement x y ssid ms) as [e |] eqn:E.
  - split.
    + intros Hlt. apply Rgtb_true in Hlt. rewrite Hlt.
      destruct (list_remove_existing _ _ _ _ _ E) as (l1 & l2 & Hms & Hl1 & _ & Hrem).
      exists l1, l2. rewrite Hrem. simpl. rewrite <- app_assoc. auto.
    + intros Hle. apply Rgtb_false in Hle. rewrite Hle. reflexivity.
  - reflexivity.
Qed.

Lemma stored_value_snoc_new (x y : Z) (ssid : string) (v : R)
  (l : list Measurement) :
  (forall a, In a l -> same_key x y ssid a = false) ->
  stored_value x y ssid (l ++ [(x, y, ssid, v)]) = Some v.
Proof.
  intros H. unfold stored_value, existing_measurement.
  rewrite find_app_skip by exact H. simpl.
  assert (Hk : same_key x y ssid (x, y, ssid, v) = true)
    by (apply same_key_spec; reflexivity).
  rewrite Hk. reflexivity.
Qed.

(** [upsert] keeps the keys of the store distinct, and the store's lookup
    then finds the stronger of the old and the new value. *)
Lemma upsert_unique (x y : Z) (ssid : string) (v : R) (ms : list Measurement) :
  unique_keys ms ->
  exists ms',
    upsert x y ssid v ms = Ok ms'
    /\ unique_keys ms'
    /\ match stored_value x y ssid ms with
       | Some old =>
           (old < v -> stored_value x y ssid ms' = Some v)
           /\ (v <= old -> stored_value x y ssid ms' = Some old)
       | None => stored_value x y ssid ms' = Some v
       end.
Proof.
  intros Hnd. pose proof (upsert_cases x y ssid v ms) as Hc.
  unfold stored_value at 1.
  destruct (existing_measurement x y ssid ms) as [e |] eqn:E; simpl.
  - destruct Hc as [Hgt Hle].
    destruct (Rlt_dec (m_strength e) v) as [Hlt | Hnlt].
    + destruct (Hgt Hlt) as (l1 & l2 & Hms & Hl1 & Hup).
      exists (l1 ++ l2 ++ [(x, y, ssid, v)]).
      assert (Hke : fst e = (x, y, ssid)).
      { apply same_key_spec.
        destruct (list_remove_existing _ _ _ _ _ E) as (_ & _ & _ & _ & He & _).
        exact He. }
      unfold unique_keys in Hnd. rewrite Hms, store_keys_app in Hnd.
      simpl in Hnd. rewrite Hke in Hnd.
      pose proof (NoDup_remove _ _ _ Hnd) as [Hnd' Hnotin].
      rewrite <- store_keys_app in Hnd', Hnotin.
      assert (Hskip : forall a, In a (l1 ++ l2) -> same_key x y ssid a = false)
        by (apply not_in_keys_same_key; exact Hnotin).
      split; [exact Hup | split; [| split]].
      * unfold unique_keys. rewrite app_assoc, store_keys_app. simpl.
        apply NoDup_snoc; assumption.
      * intros _. rewrite app_assoc. apply stored_value_snoc_new. exact Hskip.
      * intros Hle'. lra.
    + exists ms. split; [apply Hle; lra | split; [exact Hnd | split]].
      * intros Hlt. contradiction.
      * intros _. unfold stored_value. rewrite E. reflexivity.
  - exists (ms ++ [(x, y, ssid, v)]).
    assert (Hskip : forall a, In a ms -> same_key x y ssid a = false)
      by (apply find_none_iff; exact E).
    split; [exact Hc | split].
    + unfold unique_keys. rewrite store_keys_app. simpl.
      apply NoDup_snoc; [exact Hnd | apply not_in_keys_same_key; exact Hskip].
    + apply stored_value_snoc_new. exact Hskip.
Qed.

(** Every store the scan handler can build from the empty one has
    distinct keys. *)
Lemma update_measurements_unique (x y : Z) (items : list (string * R)) :
  forall ms ms',
    unique_keys ms -> update_measurements x y items ms = Ok ms' ->
    unique_keys ms'.
Proof.
  induction items as [| [ssid avg] rest IH]; intros ms ms' Hnd; simpl.
  - intros H; inversion H; subst; exact Hnd.
  - destruct (upsert_unique x y ssid avg ms Hnd) as (ms1 & H1 & Hnd1 & _).
    rewrite H1. simpl. apply IH. exact Hnd1.
Qed.

(** C2.  For every store: when line 235 finds no measurement of the key
    the new one is appended; when it finds one, that measurement is taken
    out and the new one appended if the new value is strictly greater, and
    the store stays as it is otherwise.  For every store with distinct
    keys (every store built by [upsert] from the empty one) the value
    stored for the key is afterwards the new value if it is strictly
    greater than the old one, the old value otherwise, and the new value
    when there was none.  From the empty store, upserting -50, -60, -40
    at (10, 10, "A") stores -50, keeps -50, then stores -40. *)
Theorem upsert_replaces_iff_strictly_greater :
  (forall x y ssid v ms,
      match existing_measurement x y ssid ms with
      | None => upsert x y ssid v ms = Ok (ms ++ [(x, y, ssid, v)])
      | Some e =>
          (m_strength e < v ->
           exists l1 l2,
             ms = l1 ++ e :: l2
             /\ upsert x y ssid v ms = Ok (l1 ++ l2 ++ [(x, y, ssid, v)]))
          /\ (~ m_strength e < v -> upsert x y ssid v ms = Ok ms)
      end)
  /\ (forall x y ssid v ms,
         unique_keys ms ->
         exists ms',
           upsert x y ssid v ms = Ok ms'
           /\ unique_keys ms'
           /\ match stored_value x y ssid ms with
              | Some old =>
                  (old < v -> stored_value x y ssid ms' = Some v)
                  /\ (~ old < v -> stored_value x y ssid ms' = Some old)
              | None => stored_value x y ssid ms' = Some v
              end)
  /\ (upsert 10 10 "A" (-50) [] = Ok [(10%Z, 10%Z, "A"%string, -50)]
      /\ upsert 10 10 "A" (-60) [(10%Z, 10%Z, "A"%string, -50)]
         = Ok [(10%Z, 10%Z, "A"%string, -50)]
      /\ upsert 10 10 "A" (-40) [(10%Z, 10%Z, "A"%string, -50)]
         = Ok [(10%Z, 10%Z, "A"%string, -40)]
      /\ stored_value 10 10 "A" [(10%Z, 10%Z, "A"%string, -50)] = Some (-50)
      /\ stored_value 10 10 "A" [(10%Z, 10%Z, "A"%string, -40)] = Some (-40)).
Proof.
  split; [| split].
  - intros x y ssid v ms. pose proof (upsert_cases x y ssid v ms) as Hc.
    destruct (existing_measurement x y ssid ms) as [e |]; [| exact Hc].
    destruct Hc as [Hgt Hle]. split.
    + intros Hlt. destruct (Hgt Hlt) as (l1 & l2 & Hms & _ & Hup).
      exists l1, l2. auto.
    + intros Hn. apply Hle. lra.
  - intros x y ssid v ms Hnd.
    destruct (upsert_unique x y ssid v ms Hnd) as (ms' & Hup & Hnd' & Hval).
    exists ms'. split; [exact Hup | split; [exact Hnd' |]].
    destruct (stored_value x y ssid ms) as [old |]; [| exact Hval].
    destruct Hval as [Hgt Hle]. split; [exact Hgt |].
    intros Hn. apply Hle. lra.
  - assert (H60 : Rgtb (-60) (-50) = false) by (apply Rgtb_false; lra).
    assert (H40 : Rgtb (-40) (-50) = true) by (apply Rgtb_true; lra).
    repeat split.
    + unfold upsert. simpl. unfold m_strength. simpl. rewrite H60. reflexivity.
    + unfold upsert. simpl. unfold m_strength. simpl. rewrite H40.
      unfold measurement_eqb. simpl. unfold m_strength. simpl.
      rewrite Reqb_refl. reflexivity.
Qed.

(** The measurements of other keys, in their order. *)
Lemma filter_other_keys_app (x y : Z) (ssid : string) (a b : list Measurement) :
  filter (fun m => negb (same_key x y ssid m)) (a ++ b)
  = filter (fun m => negb (same_key x y ssid m)) a
    ++ filter (fun m => negb (same_key x y ssid m)) b.
Proof. apply filter_app. Qed.

(** C10.  For every store, an [upsert] returns a store in which the
    measurements of every other key are the same, in the same order; when
    the measurement found for the key is at least as strong as the new
    value the store is returned as it was (and, in a store with distinct
    keys, this is so for any measurement of that key); and every key of
    the store before is a key of the store after. *)
Theorem upsert_frame (x y : Z) (ssid : string) (v : R) (ms : list Measurement) :
  exists ms',
    upsert x y ssid v ms = Ok ms'
    /\ filter (fun m => negb (same_key x y ssid m)) ms'
       = filter (fun m => negb (same_key x y ssid m)) ms
    /\ (forall e, existing_measurement x y ssid ms = Some e ->
                  v <= m_strength e -> ms' = ms)
    /\ (unique_keys ms ->
        forall e, In e ms -> same_key x y ssid e = true ->
                  v <= m_strength e -> ms' = ms)
    /\ (forall k, In k (store_keys ms) -> In k (store_keys ms')).
Proof.
  assert (Hnew : same_key x y ssid (x, y, ssid, v) = true)
    by (apply same_key_spec; reflexivity).
  pose proof (upsert_cases x y ssid v ms) as Hc.
  destruct (existing_measurement x y ssid ms) as [e |] eqn:E.
  - destruct Hc as [Hgt Hle].
    destruct (list_remove_existing _ _ _ _ _ E) as (m1 & m2 & Hm & Hm1 & He & _).
    assert (Huniq : unique_keys ms ->
                    forall e', In e' ms -> same_key x y ssid e' = true -> e' = e).
    { intros Hnd e' Hin Hk. unfold unique_keys in Hnd.
      rewrite Hm, store_keys_app in Hnd. simpl in Hnd.
      apply NoDup_remove in Hnd. destruct Hnd as [_ Hnotin].
      rewrite <- store_keys_app in Hnotin.
      apply same_key_spec in He. rewrite He in Hnotin.
      rewrite Hm in Hin. apply in_app_iff in Hin. simpl in Hin.
      destruct Hin as [Hin | [Heq | Hin]]; [| auto |].
      - pose proof (proj1 (not_in_keys_same_key x y ssid (m1 ++ m2)) Hnotin e') as Hf.
        rewrite Hf in Hk by (apply in_app_iff; auto). discriminate.
      - pose proof (proj1 (not_in_keys_same_key x y ssid (m1 ++ m2)) Hnotin e') as Hf.
        rewrite Hf in Hk by (apply in_app_iff; auto). discriminate. }
    destruct (Rlt_dec (m_strength e) v) as [Hlt | Hnlt].
    + destruct (Hgt Hlt) as (l1 & l2 & Hms & Hl1 & Hup).
      exists (l1 ++ l2 ++ [(x, y, ssid, v)]).
      split; [exact Hup | split; [| split; [| split]]].
      * rewrite Hms, !filter_other_keys_app. simpl.
        rewrite He, Hnew. simpl. rewrite app_nil_r. reflexivity.
      * intros e0 He0 Hle0. inversion He0; subst e0. lra.
      * intros Hnd e' Hin Hk Hle'.
        rewrite (Huniq Hnd e' Hin Hk) in Hle'. lra.
      * intros k Hk. rewrite Hms in Hk. rewrite store_keys_app in Hk.
        rewrite app_assoc, store_keys_app. simpl in *.
        apply in_app_iff in Hk. apply in_app_iff.
        destruct Hk as [Hk | [Hk | Hk]].
        -- left. rewrite store_keys_app. apply in_app_iff. auto.
        -- right. left. rewrite <- Hk. symmetry. apply same_key_spec. exact He.
        -- left. rewrite store_keys_app. apply in_app_iff. auto.
    + exists ms. split; [apply Hle; lra |]. repeat split; auto.
  - exists (ms ++ [(x, y, ssid, v)]).
    split; [exact Hc | split; [| split; [| split]]].
    + rewrite filter_other_keys_app. simpl. rewrite Hnew. simpl.
      apply app_nil_r.
    + intros e He. discriminate.
    + intros _ e Hin Hk. unfold existing_measurement in E.
      rewrite (find_none _ _ E e Hin) in Hk. discriminate.
    + intros k Hk. rewrite store_keys_app. apply in_app_iff. auto.
Qed.

(** ** Calibration *)

Lemma pixel_distance_sqr (p1 p2 : Z * Z) :
  pixel_distance p1 p2 * pixel_distance p1 p2
  = (IZR (fst p2) - IZR (fst p1)) ^ 2 + (IZR (snd p2) - IZR (snd p1)) ^ 2.
Proof.
  unfold pixel_distance. rewrite sqrt_sqrt.
  - rewrite plus_IZR, !Z.pow_2_r, !mult_IZR, !minus_IZR. ring.
  - apply IZR_le. nia.
Qed.

Lemma pixel_distance_pos (p1 p2 : Z * Z) :
  p1 <> p2 -> 0 < pixel_distance p1 p2.
Proof.
  intros Hne. unfold pixel_distance. apply sqrt_lt_R0. apply IZR_lt.
  destruct p1 as [x1 y1], p2 as [x2 y2]. simpl.
  assert (Hd : (x2 - x1 <> 0 \/ y2 - y1 <> 0)%Z).
  { destruct (Z.eq_dec x1 x2) as [-> |]; [| lia].
    destruct (Z.eq_dec y1 y2) as [-> |]; [congruence | lia]. }
  nia.
Qed.

Lemma pixel_distance_same (p : Z * Z) : pixel_distance p p = 0.
Proof.
  unfold pixel_distance. rewrite !Z.sub_diag. simpl. apply sqrt_0.
Qed.

Lemma np_true_divide_finite (a b : R) :
  b <> 0 -> np_true_divide a b = Finite (a / b).
Proof.
  intros Hb. unfold np_true_divide.
  destruct (Req_dec_T b 0); [contradiction | reflexivity].
Qed.

(** C5.  With two distinct calibration points recorded and a distance
    above zero, [calculate_pixels_per_meter] sets [pixels_per_meter] to the
    Euclidean pixel distance of the points divided by the distance, and
    this value is strictly positive. *)
Theorem calculate_pixels_per_meter_scale
  (s : App) (p1 p2 : Z * Z) (distance_meters : R) :
  calibration_points s = [p1; p2] ->
  p1 <> p2 ->
  0 < distance_meters ->
  pixels_per_meter (calculate_pixels_per_meter distance_meters s)
  = Some (Finite (pixel_distance p1 p2 / distance_meters))
  /\ pixel_distance p1 p2 * pixel_distance p1 p2
     = (IZR (fst p2) - IZR (fst p1)) ^ 2 + (IZR (snd p2) - IZR (snd p1)) ^ 2
  /\ 0 <= pixel_distance p1 p2
  /\ 0 < pixel_distance p1 p2 / distance_meters.
Proof.
  intros Hpts Hne Hd. pose proof (pixel_distance_pos p1 p2 Hne) as Hpos.
  repeat split.
  - unfold calculate_pixels_per_meter. rewrite Hpts. simpl.
    rewrite np_true_divide_finite by lra. reflexivity.
  - apply pixel_distance_sqr.
  - lra.
  - apply Rdiv_lt_0_compat; assumption.
Qed.

Lemma calculate_pixels_per_meter_scale_witness :
  pixels_per_meter
    (calculate_pixels_per_meter 10
       (set_calibration_points [(0%Z, 0%Z); (3%Z, 4%Z)] init_app))
  = Some (Finite (pixel_distance (0%Z, 0%Z) (3%Z, 4%Z) / 10))
  /\ 0 < pixel_distance (0%Z, 0%Z) (3%Z, 4%Z) / 10.
Proof.
  pose proof (calculate_pixels_per_meter_scale
                (set_calibration_points [(0%Z, 0%Z); (3%Z, 4%Z)] init_app)
                (0%Z, 0%Z) (3%Z, 4%Z) 10 eq_refl
                ltac:(discriminate) ltac:(lra)) as (H1 & _ & _ & H4).
  split; [exact H1 | exact H4].
Defined.

(** C3, as stated, fails on the code: two clicks on the point (5, 5) and
    a confirmed distance of 10 complete the calibration, with
    [pixels_per_meter] set to 0, which is not strictly positive. *)
Lemma identical_points_calibrate_to_zero :
  let s2 :=
    handle_calibration_click (Some 10) 5 5
      (handle_calibration_click None 5 5 (load_map "map.png" init_app)) in
  pixels_per_meter s2 = Some (Finite 0)
  /\ is_calibrating s2 = false
  /\ enabled_scans s2 = true
  /\ ~ (forall r, pixels_per_meter s2 = Some (Finite r) -> 0 < r).
Proof.
  assert (H : pixels_per_meter
                (handle_calibration_click (Some 10) 5 5
                   (handle_calibration_click None 5 5
                      (load_map "map.png" init_app)))
              = Some (Finite 0)).
  { unfold handle_calibration_click, calculate_pixels_per_meter. simpl.
    rewrite np_true_divide_finite by lra.
    rewrite pixel_distance_same. do 2 f_equal. lra. }
  cbv zeta. repeat split.
  - exact H.
  - intros Hall. specialize (Hall 0 H). lra.
Qed.

(** C3, amended.  Calibrating with two identical points raises nothing:
    for every confirmed distance other than zero the second click
    completes the calibration and [pixels_per_meter] is the finite number
    0 (not an infinity, not a NaN, and not strictly positive).  The
    divisor is the confirmed distance, never the pixel distance. *)
Theorem identical_points_give_zero_scale
  (dialog0 : option R) (distance : R) (x y : Z) (s : App) :
  calibration_points s = [] ->
  distance <> 0 ->
  let s2 :=
    handle_calibration_click (Some distance) x y
      (handle_calibration_click dialog0 x y s) in
  pixels_per_meter s2 = Some (Finite 0)
  /\ is_calibrating s2 = false
  /\ calibration_points s2 = [(x, y); (x, y)].
Proof.
  intros Hpts Hd. cbv zeta.
  unfold handle_calibration_click, calculate_pixels_per_meter. simpl.
  rewrite Hpts. simpl.
  rewrite np_true_divide_finite by exact Hd.
  rewrite pixel_distance_same. repeat split.
  do 2 f_equal. unfold Rdiv. apply Rmult_0_l.
Qed.

Lemma identical_points_give_zero_scale_witness :
  pixels_per_meter
    (handle_calibration_click (Some 10) 5 5
       (handle_calibration_click None 5 5 (load_map "map.png" init_app)))
  = Some (Finite 0).
Proof.
  exact (proj1 (identical_points_give_zero_scale None 10 5 5
                  (load_map "map.png" init_app) eq_refl
                  ltac:(lra))).
Defined.

(** ** The model of the scan handler *)

Lemma dict_set_twice (d : dict string (list R)) (k : string) (v1 v2 : list R) :
  dict_set String.eqb (dict_set String.eqb d k v1) k v2
  = dict_set String.eqb d k v2.
Proof.
  induction d as [| [k' v'] r IH]; simpl.
  - rewrite String.eqb_refl. reflexivity.
  - destruct (String.eqb k' k) eqn:E; simpl; rewrite E; [reflexivity |].
    rewrite IH. reflexivity.
Qed.

Lemma dict_set_Forall {V : Type} (P : V -> Prop) (d : dict string V)
  (k : string) (v : V) :
  Forall (fun e => P (snd e)) d -> P v ->
  Forall (fun e => P (snd e)) (dict_set String.eqb d k v).
Proof.
  intros Hd Hv. induction d as [| [k' v'] r IH]; simpl.
  - constructor; [exact Hv | constructor].
  - inversion Hd; subst.
    destruct (String.eqb k' k); constructor; auto.
Qed.

(** Every list a pass collects is one watt value of one reading. *)
Lemma scan_pass_singletons (aps : list Reading) :
  forall scan,
    Forall (fun e => exists d, snd e = [signal_watts d]) scan ->
    exists scan',
      scan_pass [] scan aps = Ok scan'
      /\ Forall (fun e => exists d, snd e = [signal_watts d]) scan'.
Proof.
  induction aps as [| [ssid sg] rest IH]; intros scan Hscan; simpl.
  - exists scan. auto.
  - apply IH.
    destruct (negb (dict_mem String.eqb scan ssid)).
    + rewrite dict_set_twice.
      apply (dict_set_Forall (fun v => exists d, v = [signal_watts d]));
        [exact Hscan | exists sg; reflexivity].
    + apply (dict_set_Forall (fun v => exists d, v = [signal_watts d]));
        [exact Hscan | exists sg; reflexivity].
Qed.

Lemma averaged_signals_from_total (items : list (string * list R)) :
  Forall (fun e => exists d, snd e = [signal_watts d]) items ->
  forall acc, exists avg, averaged_signals_from items acc = Ok avg.
Proof.
  induction items as [| [ssid signals] rest IH]; intros Hall acc; simpl.
  - eexists; reflexivity.
  - inversion Hall as [| ? ? [d Hd] Hrest]; subst. simpl in Hd. subst signals.
    rewrite average_dbm_single. simpl. apply IH. exact Hrest.
Qed.

Lemma aggregate_scans_total (f : nat -> list Reading) :
  exists avg, aggregate_scans f = Ok avg.
Proof.
  rewrite aggregate_scans_third_pass.
  destruct (scan_pass_singletons (f 2%nat) [] (Forall_nil _)) as (s & Hs & Hall).
  rewrite Hs. simpl. apply averaged_signals_from_total. exact Hall.
Qed.

(** The model of [perform_scan] yields a state, and touches neither the
    calibration points nor the calibration flag. *)
Lemma perform_scan_total (f : nat -> list Reading) (x y : Z) (s : App) :
  exists s',
    perform_scan f x y s = Ok s'
    /\ calibration_points s' = calibration_points s
    /\ is_calibrating s' = is_calibrating s
    /\ pixels_per_meter s' = pixels_per_meter s.
Proof.
  unfold perform_scan. destruct (negb (interface s)).
  - exists s. auto.
  - destruct (aggregate_scans_total f) as [avg Havg]. rewrite Havg. simpl.
    destruct (update_measurements_total x y avg (measurements s)) as [ms Hms].
    rewrite Hms. simpl. eexists. split; [reflexivity |]. simpl. auto.
Qed.

(** C9, as stated, fails on the code: with the distance dialog cancelled
    after the second point, a third click returns normally and leaves
    three calibration points, the application still calibrating and no
    scale set. *)
Lemma third_calibration_point_is_recorded :
  let s2 :=
    handle_calibration_click None 2 2
      (handle_calibration_click None 1 1 (load_map "map.png" init_app)) in
  calibration_points s2 = [(1%Z, 1%Z); (2%Z, 2%Z)]
  /\ pixels_per_meter s2 = None
  /\ exists s3,
       record_click None (fun _ => []) true 3 3 s2 = Ok s3
       /\ calibration_points s3 = [(1%Z, 1%Z); (2%Z, 2%Z); (3%Z, 3%Z)]
       /\ is_calibrating s3 = true
       /\ pixels_per_meter s3 = None.
Proof.
  cbv zeta. split; [reflexivity | split; [reflexivity |]].
  eexists. split; [reflexivity |]. repeat split.
Qed.

Lemma handle_calibration_click_appends (dialog : option R) (x y : Z) (s : App) :
  calibration_points (handle_calibration_click dialog x y s)
  = calibration_points s ++ [(x, y)].
Proof.
  unfold handle_calibration_click, calculate_pixels_per_meter. simpl.
  destruct (calibration_points s) as [| p1 [| p2 l]]; simpl.
  - reflexivity.
  - destruct dialog; reflexivity.
  - rewrite length_app. simpl. rewrite Nat.add_1_r. reflexivity.
Qed.

(** C9, amended.  Recording a calibration point before the distance has
    been confirmed raises no error, the third time as any other time:
    the handler appends every click to the point list, so with a map
    loaded, two points recorded and the application still calibrating
    (the distance dialog was cancelled) a further click returns normally
    with three points recorded, calibration still open, and the scale
    and the store as they were.  A third point is kept out only once the
    distance has been confirmed: the application has then left
    calibration with exactly the two points, and every later click that
    returns leaves them as they are. *)
Theorem third_point_kept_out_only_after_confirmation :
  (forall dialog x y s,
      calibration_points (handle_calibration_click dialog x y s)
      = calibration_points s ++ [(x, y)])
  /\ (forall dialog f left_button x y s p1 p2 path,
         map_image_path s = Some path ->
         path <> EmptyString ->
         is_calibrating s = true ->
         calibration_points s = [p1; p2] ->
         exists s',
           record_click dialog f left_button x y s = Ok s'
           /\ calibration_points s' = [p1; p2; (x, y)]
           /\ is_calibrating s' = true
           /\ pixels_per_meter s' = pixels_per_meter s
           /\ measurements s' = measurements s)
  /\ (forall dialog0 distance x1 y1 x2 y2 s,
         calibration_points s = [] ->
         let s2 :=
           handle_calibration_click (Some distance) x2 y2
             (handle_calibration_click dialog0 x1 y1 s) in
         calibration_points s2 = [(x1, y1); (x2, y2)]
         /\ is_calibrating s2 = false
         /\ forall dialog f left_button x y s3,
              record_click dialog f left_button x y s2 = Ok s3 ->
              calibration_points s3 = [(x1, y1); (x2, y2)]
              /\ is_calibrating s3 = false).
Proof.
  split; [exact handle_calibration_click_appends | split].
  - intros dialog f left_button x y s p1 p2 path Hmap Hpath Hc Hpts.
    unfold record_click. rewrite Hmap.
    assert (E : String.eqb path EmptyString = false).
    { destruct (String.eqb path EmptyString) eqn:E; [| reflexivity].
      apply String.eqb_eq in E. contradiction. }
    rewrite E, Hc. eexists. split; [reflexivity |].
    unfold handle_calibration_click. simpl. rewrite Hpts. simpl.
    repeat split; assumption.
  - intros dialog0 distance x1 y1 x2 y2 s Hpts. cbv zeta.
    set (s2 := handle_calibration_click (Some distance) x2 y2
                 (handle_calibration_click dialog0 x1 y1 s)).
    assert (Hp2 : calibration_points s2 = [(x1, y1); (x2, y2)]).
    { unfold s2. rewrite !handle_calibration_click_appends, Hpts. reflexivity. }
    assert (Hc2 : is_calibrating s2 = false).
    { unfold s2, handle_calibration_click, calculate_pixels_per_meter. simpl.
      rewrite Hpts. reflexivity. }
    split; [exact Hp2 | split; [exact Hc2 |]].
    intros dialog f left_button x y s3. unfold record_click.
    destruct (map_image_path s2) as [path |];
      [| intros H; inversion H; subst; auto].
    destruct (String.eqb path EmptyString);
      [intros H; inversion H; subst; auto |].
    rewrite Hc2.
    destruct (left_button && enabled_scans s2);
      [| intros H; inversion H; subst; auto].
    destruct (perform_scan_total f x y s2) as (s3' & H3 & Hp3 & Hc3 & _).
    rewrite H3. intros H; inversion H; subst s3'.
    rewrite Hp3, Hc3. auto.
Qed.

Lemma third_point_kept_out_only_after_confirmation_witness :
  exists s',
    record_click None (fun _ => []) true 3 3
      (handle_calibration_click None 2 2
         (handle_calibration_click None 1 1 (load_map "map.png" init_app)))
    = Ok s'
    /\ calibration_points s' = [(1%Z, 1%Z); (2%Z, 2%Z); (3%Z, 3%Z)]
    /\ is_calibrating s' = true.
Proof.
  destruct (proj1 (proj2 third_point_kept_out_only_after_confirmation)
              None (fun _ => []) true 3%Z 3%Z
              (handle_calibration_click None 2 2
                 (handle_calibration_click None 1 1
                    (load_map "map.png" init_app)))
              (1%Z, 1%Z) (2%Z, 2%Z) "map.png"%string
              eq_refl ltac:(discriminate) eq_refl eq_refl)
    as (s' & Hrun & Hpts & Hc & _).
  exists s'. split; [exact Hrun | split; [exact Hpts | exact Hc]].
Defined.

(** ** The interpolation grid *)


Lemma np_ceil_unique (x : R) (z : Z) : IZR z - 1 < x <= IZR z -> np_ceil x = z.
Proof.
  intros [H1 H2]. unfold np_ceil.
  rewrite <- (Int_part_spec (- x) (- z)%Z).
  - apply Z.opp_involutive.
  - rewrite opp_IZR. lra.
Qed.

Lemma np_ceil_IZR (z : Z) : np_ceil (IZR z) = z.
Proof. apply np_ceil_unique. lra. Qed.



Lemma np_arange_length (stop step : R) (n : Z) :
  0 < step -> stop / step = IZR n ->
  exists l, np_arange 0 stop step = Ok l /\ List.length l = Z.to_nat n.
Proof.
  intros Hstep Hq. unfold np_arange.
  destruct (Req_dec_T step 0) as [H0 | _]; [lra |].
  rewrite Rminus_0_r, Hq, np_ceil_IZR.
  eexists. split; [reflexivity |]. rewrite length_map, length_seq. reflexivity.
Qed.




(** ** The field *)

Lemma combine_map_same {A B C : Type} (f : A -> B) (g : A -> C) (l : list A) :
  combine (map f l) (map g l) = map (fun a => (f a, g a)) l.
Proof.
  induction l as [| a l IH]; simpl; [reflexivity | rewrite IH; reflexivity].
Qed.

(** On a mesh, the element-wise call evaluates the interpolant at every
    pair of a column coordinate and a row coordinate. *)
Lemma rbf_call_meshgrid (rbf : R -> R -> R) (x_grid y_grid : list R) :
  rbf_call rbf (fst (np_meshgrid x_grid y_grid)) (snd (np_meshgrid x_grid y_grid))
  = map (fun y => map (fun x => rbf x y) x_grid) y_grid.
Proof.
  unfold rbf_call, np_meshgrid. simpl.
  rewrite combine_map_same, map_map. apply map_ext. intros y. simpl.
  rewrite <- (map_id x_grid) at 1.
  rewrite combine_map_same, map_map. reflexivity.
Qed.

Lemma nth_map_in {A B : Type} (f : A -> B) (l : list A) (i : nat) (d : B) (d' : A) :
  (i < List.length l)%nat -> nth i (map f l) d = f (nth i l d').
Proof.
  intros Hi. rewrite nth_indep with (d' := f d')
    by (rewrite length_map; exact Hi).
  apply map_nth.
Qed.

Lemma np_negative_nth (Z : list (list R)) (i j : nat) :
  nth j (nth i (np_negative Z) []) 0 = - nth j (nth i Z []) 0.
Proof.
  unfold np_negative.
  change (@nil R) with (map Ropp []) at 1. rewrite map_nth.
  replace 0 with (- 0) at 1 by lra. apply map_nth.
Qed.

Lemma np_negative_shape (Z : list (list R)) :
  List.length (np_negative Z) = List.length Z
  /\ forall i, List.length (nth i (np_negative Z) []) = List.length (nth i Z []).
Proof.
  unfold np_negative. split; [apply length_map |].
  intros i. change (@nil R) with (map Ropp []) at 1.
  rewrite map_nth. apply length_map.
Qed.

(** C7.  Whenever the grid is built and the fit succeeds, the raw field
    holds at row [i], column [j] the value [v] of the interpolant at the
    lattice point [(x_grid[j], y_grid[i])], and the field handed on by
    [plot_heatmap] has the same shape and holds exactly [-v] there; in
    general the output of [plot_heatmap] is, entry by entry, the negation
    of the raw field. *)
Theorem plot_heatmap_negates_raw_field
  (Rbf : list R -> list R -> list R -> R -> py (R -> R -> R))
  (width height : Z) (radius ppm : R)
  (x_coords y_coords : list Z) (strengths : list R) :
  (forall Zraw,
      raw_field Rbf width height radius ppm x_coords y_coords strengths = Ok Zraw ->
      exists Zout,
        plot_heatmap Rbf width height radius ppm x_coords y_coords strengths
        = Ok Zout
        /\ List.length Zout = List.length Zraw
        /\ forall i j,
             List.length (nth i Zout []) = List.length (nth i Zraw [])
             /\ nth j (nth i Zout []) 0 = - nth j (nth i Zraw []) 0)
  /\ (forall x_grid y_grid rbf,
         interpolation_grid width height radius ppm = Ok (x_grid, y_grid) ->
         Rbf (map IZR x_coords) (map IZR y_coords) strengths (radius * ppm)
         = Ok rbf ->
         exists Zraw Zout,
           raw_field Rbf width height radius ppm x_coords y_coords strengths
           = Ok Zraw
           /\ plot_heatmap Rbf width height radius ppm x_coords y_coords strengths
              = Ok Zout
           /\ List.length Zout = List.length y_grid
           /\ forall i j,
                (i < List.length y_grid)%nat -> (j < List.length x_grid)%nat ->
                List.length (nth i Zout []) = List.length x_grid
                /\ nth j (nth i Zraw []) 0 = rbf (nth j x_grid 0) (nth i y_grid 0)
                /\ nth j (nth i Zout []) 0
                   = - rbf (nth j x_grid 0) (nth i y_grid 0)).
Proof.
  split.
  - intros Zraw Hraw. exists (np_negative Zraw).
    unfold plot_heatmap. rewrite Hraw. simpl.
    split; [reflexivity | split; [apply np_negative_shape |]].
    intros i j. split; [apply np_negative_shape | apply np_negative_nth].
  - intros x_grid y_grid rbf Hgrid Hfit.
    set (Zraw := map (fun y => map (fun x => rbf x y) x_grid) y_grid).
    assert (Hraw : raw_field Rbf width height radius ppm x_coords y_coords strengths
                   = Ok Zraw).
    { unfold raw_field. rewrite Hgrid. simpl. rewrite Hfit. simpl.
      f_equal. apply (rbf_call_meshgrid rbf x_grid y_grid). }
    exists Zraw, (np_negative Zraw).
    split; [exact Hraw | split].
    { unfold plot_heatmap. rewrite Hraw. reflexivity. }
    split.
    { rewrite (proj1 (np_negative_shape Zraw)). unfold Zraw. apply length_map. }
    intros i j Hi Hj.
    assert (Hrow : nth i Zraw [] = map (fun x => rbf x (nth i y_grid 0)) x_grid).
    { unfold Zraw.
      exact (nth_map_in (fun y => map (fun x => rbf x y) x_grid) y_grid i [] 0 Hi). }
    assert (Hv : nth j (nth i Zraw []) 0 = rbf (nth j x_grid 0) (nth i y_grid 0)).
    { rewrite Hrow.
      apply (nth_map_in (fun x => rbf x (nth i y_grid 0)) x_grid j 0 0 Hj). }
    split; [| split].
    + rewrite (proj2 (np_negative_shape Zraw) i), Hrow. apply length_map.
    + exact Hv.
    + rewrite np_negative_nth, Hv. reflexivity.
Qed.

Lemma plot_heatmap_negates_raw_field_witness :
  exists Zraw Zout,
    raw_field (fun _ _ _ _ => Ok (fun x y => x + y)) 2 1 1 1 [0%Z] [0%Z] [-50]
    = Ok Zraw
    /\ plot_heatmap (fun _ _ _ _ => Ok (fun x y => x + y)) 2 1 1 1 [0%Z] [0%Z] [-50]
       = Ok Zout
    /\ nth 1 (nth 0 Zout []) 0 = - nth 1 (nth 0 Zraw []) 0.
Proof.
  assert (Hg : interpolation_grid 2 1 1 1
               = Ok (map (fun i => 0 + INR i * (1 * 1)) (seq 0 2),
                     map (fun i => 0 + INR i * (1 * 1)) (seq 0 1))).
  { unfold interpolation_grid, np_arange.
    destruct (Req_dec_T (1 * 1) 0) as [H0 | _]; [lra |].
    replace ((2 - 0) / (1 * 1)) with (IZR 2) by lra.
    replace ((1 - 0) / (1 * 1)) with (IZR 1) by lra.
    rewrite !np_ceil_IZR. reflexivity. }
  destruct (proj2 (plot_heatmap_negates_raw_field
                     (fun _ _ _ _ => Ok (fun x y => x + y))
                     2 1 1 1 [0%Z] [0%Z] [-50])
              _ _ (fun x y => x + y) Hg eq_refl)
    as (Zraw & Zout & Hraw & Hout & _ & Hpt).
  exists Zraw, Zout. split; [exact Hraw | split; [exact Hout |]].
  destruct (Hpt 0%nat 1%nat ltac:(simpl; lia) ltac:(simpl; lia))
    as (_ & Hv & Hn).
  rewrite Hn, Hv. reflexivity.
Defined.

Lemma filtered_measurements_best_per_location_witness :
  exists v,
    In ((1%Z, 1%Z), v)
       (filtered_measurements "A"
          [(1%Z, 1%Z, "A"%string, -50); (1%Z, 1%Z, "A"%string, -40)]).
Proof.
  apply (proj1 (proj2 (filtered_measurements_best_per_location "A"
                         [(1%Z, 1%Z, "A"%string, -50);
                          (1%Z, 1%Z, "A"%string, -40)]))
           1%Z 1%Z (-50)).
  simpl. left. reflexivity.
Defined.

Lemma upsert_replaces_iff_strictly_greater_witness :
  exists ms',
    upsert 10 10 "A" (-50) [] = Ok ms'
    /\ unique_keys ms'
    /\ stored_value 10 10 "A" ms' = Some (-50).
Proof.
  destruct (proj1 (proj2 upsert_replaces_iff_strictly_greater)
              10%Z 10%Z "A"%string (-50) [] (NoDup_nil _))
    as (ms' & Hup & Hnd & Hval).
  exists ms'. split; [exact Hup | split; [exact Hnd | exact Hval]].
Defined.

Lemma upsert_frame_witness :
  exists ms',
    upsert 10 10 "A" (-60) [(10%Z, 10%Z, "A"%string, -50)] = Ok ms'
    /\ ms' = [(10%Z, 10%Z, "A"%string, -50)].
Proof.
  destruct (upsert_frame 10 10 "A" (-60) [(10%Z, 10%Z, "A"%string, -50)])
    as (ms' & Hup & _ & Hsame & _).
  exists ms'. split; [exact Hup |].
  apply (Hsame (10%Z, 10%Z, "A"%string, -50)); [reflexivity |].
  unfold m_strength. simpl. lra.
Defined.

(** * Further properties of the code *)

(** ** [mergeDictionary] *)

Lemma string_eqb_spec (a b : string) : String.eqb a b = true <-> a = b.
Proof. apply String.eqb_eq. Qed.

Lemma dict_mem_true_iff {V : Type} (d : dict string V) (k : string) :
  dict_mem String.eqb d k = true <-> In k (dict_keys d).
Proof.
  unfold dict_mem.
  pose proof (dict_get_None String.eqb string_eqb_spec d k) as Hn.
  destruct (dict_get String.eqb d k) as [v |].
  - split; [intros _ | reflexivity].
    destruct (in_dec string_dec k (dict_keys d)) as [Hin | Hout]; [exact Hin |].
    apply Hn in Hout. discriminate.
  - split; [discriminate |]. intros Hin. exfalso. apply (proj1 Hn); auto.
Qed.

Lemma merge_fold_lookup (val : string -> list R) (ks : list string) :
  forall (acc : dict string (list R)) (k : string),
    (In k ks ->
     dict_get String.eqb
       (fold_left (fun merged key => dict_set String.eqb merged key (val key))
          ks acc) k = Some (val k))
    /\ (~ In k ks ->
        dict_get String.eqb
          (fold_left (fun merged key => dict_set String.eqb merged key (val key))
             ks acc) k = dict_get String.eqb acc k).
Proof.
  induction ks as [| k0 ks IH]; intros acc k; simpl.
  - split; [tauto | reflexivity].
  - destruct (IH (dict_set String.eqb acc k0 (val k0)) k) as [IHin IHout].
    destruct (in_dec string_dec k ks) as [Hin | Hnotin].
    + split; [intros _; apply IHin; exact Hin | intros Hn; exfalso; apply Hn; auto].
    + split.
      * intros [Heq | Hin]; [subst k0 | contradiction].
        rewrite (IHout Hnotin).
        apply (dict_get_set_same String.eqb string_eqb_spec).
      * intros Hn. rewrite (IHout Hnotin).
        apply (dict_get_set_other String.eqb string_eqb_spec).
        intros Heq. apply Hn. left. exact Heq.
Qed.

Lemma merge_fold_NoDup (val : string -> list R) (ks : list string) :
  forall acc : dict string (list R),
    NoDup (dict_keys acc) ->
    NoDup (dict_keys
             (fold_left (fun merged key => dict_set String.eqb merged key (val key))
                ks acc)).
Proof.
  induction ks as [| k0 ks IH]; intros acc Hnd; simpl; [exact Hnd |].
  apply IH. apply (dict_set_NoDup String.eqb string_eqb_spec). exact Hnd.
Qed.

(** X1.  The dictionary [mergeDictionary] returns has pairwise distinct
    keys, holds a key exactly when one of the two arguments holds it, and
    maps it to the list of the first argument (empty when the key is
    missing there) followed by the list of the second. *)
Theorem mergeDictionary_lookup (dict1 dict2 : dict string (list R)) (key : string) :
  NoDup (dict_keys (mergeDictionary dict1 dict2))
  /\ dict_get String.eqb (mergeDictionary dict1 dict2) key
     = if dict_mem String.eqb dict1 key || dict_mem String.eqb dict2 key
       then Some (dict_get_default String.eqb dict1 key []
                  ++ dict_get_default String.eqb dict2 key [])
       else None.
Proof.
  unfold mergeDictionary. split.
  - apply merge_fold_NoDup. constructor.
  - destruct (merge_fold_lookup
                (fun k => dict_get_default String.eqb dict1 k []
                          ++ dict_get_default String.eqb dict2 k [])
                (dict_keys dict1 ++ dict_keys dict2) [] key) as [Hin Hout].
    destruct (dict_mem String.eqb dict1 key || dict_mem String.eqb dict2 key)
      eqn:Em.
    + apply Hin. apply in_app_iff. apply orb_true_iff in Em.
      destruct Em as [E | E]; apply dict_mem_true_iff in E; auto.
    + rewrite Hout; [reflexivity |].
      apply orb_false_iff in Em. destruct Em as [E1 E2].
      intros Hk. apply in_app_iff in Hk.
      destruct Hk as [Hk | Hk]; apply dict_mem_true_iff in Hk; congruence.
Qed.

(** ** Averages in watts *)

Lemma py_sum_acc (l : list R) (a : R) :
  fold_left Rplus l a = a + fold_left Rplus l 0.
Proof.
  revert a. induction l as [| x l IH]; intros a; simpl; [lra |].
  rewrite (IH (a + x)), (IH (0 + x)). lra.
Qed.

Lemma py_sum_bounds (ws : list R) (lo hi : R) :
  (forall w, In w ws -> lo <= w <= hi) ->
  py_len ws * lo <= py_sum ws <= py_len ws * hi.
Proof.
  unfold py_sum, py_len. induction ws as [| w ws IH]; intros Hall.
  - simpl. lra.
  - assert (Hw : lo <= w <= hi) by (apply Hall; left; reflexivity).
    assert (Hrest : forall w', In w' ws -> lo <= w' <= hi)
      by (intros w' Hw'; apply Hall; right; exact Hw').
    specialize (IH Hrest).
    change (List.length (w :: ws)) with (S (List.length ws)).
    rewrite S_INR. simpl fold_left. rewrite py_sum_acc. lra.
Qed.

Lemma signal_watts_scaled (d : R) : signal_watts d * 1000 = Rpower 10 (d / 10).
Proof. unfold signal_watts, math_pow10. field. Qed.

Lemma log10_Rpower (y : R) : ln (Rpower 10 y) / ln 10 = y.
Proof.
  unfold Rpower. rewrite ln_exp. pose proof ln_10_pos. field. lra.
Qed.

Lemma ln_monotone (a b : R) : 0 < a -> a <= b -> ln a <= ln b.
Proof.
  intros Ha [Hlt | Heq].
  - left. apply ln_increasing; assumption.
  - subst. right. reflexivity.
Qed.

(** X2.  For a non-empty list of readings that all lie between [lo] and
    [hi] dBm, the average of their watt values, converted back, is
    defined and lies between [lo] and [hi] dBm; the average of readings
    that are all equal to [d] is [d]. *)
Theorem average_dbm_between (ds : list R) (lo hi : R) :
  ds <> [] ->
  (forall d, In d ds -> lo <= d <= hi) ->
  exists v, average_dbm (map signal_watts ds) = Ok v /\ lo <= v <= hi.
Proof.
  intros Hne Hall.
  set (ws := map signal_watts ds).
  assert (Hlen : 0 < py_len ws).
  { unfold py_len, ws. rewrite length_map.
    destruct ds as [| d ds']; [congruence |]. apply lt_0_INR. simpl. lia. }
  assert (Hws : forall w, In w ws -> signal_watts lo <= w <= signal_watts hi).
  { intros w Hw. unfold ws in Hw. apply in_map_iff in Hw.
    destruct Hw as (d & <- & Hd). destruct (Hall d Hd) as [[Hl | Hl] [Hh | Hh]];
      subst; split;
      try (left; apply signal_watts_increasing; assumption);
      try (right; reflexivity). }
  pose proof (py_sum_bounds ws _ _ Hws) as [Hs1 Hs2].
  set (m := py_sum ws / py_len ws * 1000).
  assert (Hm1 : Rpower 10 (lo / 10) <= m).
  { rewrite <- signal_watts_scaled. unfold m.
    apply Rmult_le_compat_r; [lra |].
    apply Rmult_le_reg_r with (py_len ws); [exact Hlen |].
    replace (py_sum ws / py_len ws * py_len ws) with (py_sum ws) by (field; lra).
    lra. }
  assert (Hm2 : m <= Rpower 10 (hi / 10)).
  { rewrite <- signal_watts_scaled. unfold m.
    apply Rmult_le_compat_r; [lra |].
    apply Rmult_le_reg_r with (py_len ws); [exact Hlen |].
    replace (py_sum ws / py_len ws * py_len ws) with (py_sum ws) by (field; lra).
    lra. }
  assert (Hp : 0 < Rpower 10 (lo / 10)) by (unfold Rpower; apply exp_pos).
  assert (Hm0 : 0 < m) by lra.
  pose proof ln_10_pos as Hln.
  exists (10 * (ln m / ln 10)). split.
  - unfold average_dbm. fold ws. fold m. rewrite (math_log10_pos m Hm0). reflexivity.
  - pose proof (ln_monotone _ _ Hp Hm1) as H1.
    pose proof (ln_monotone _ _ Hm0 Hm2) as H2.
    assert (H1' : lo / 10 <= ln m / ln 10).
    { rewrite <- (log10_Rpower (lo / 10)).
      apply Rmult_le_compat_r; [left; apply Rinv_0_lt_compat; exact Hln | exact H1]. }
    assert (H2' : ln m / ln 10 <= hi / 10).
    { rewrite <- (log10_Rpower (hi / 10)).
      apply Rmult_le_compat_r; [left; apply Rinv_0_lt_compat; exact Hln | exact H2]. }
    lra.
Qed.

Lemma average_dbm_between_witness :
  exists v,
    average_dbm (map signal_watts [-50; -50; -50]) = Ok v /\ -50 <= v <= -50.
Proof.
  apply (average_dbm_between [-50; -50; -50] (-50) (-50)).
  - discriminate.
  - intros d [<- | [<- | [<- | []]]]; lra.
Defined.

(** ** What the three passes yield *)

Lemma scan_reading_overwrites (scan : dict string (list R)) (ssid : string)
  (sg : R) :
  scan_reading [] scan (ssid, sg)
  = Ok (dict_set String.eqb scan ssid [signal_watts sg]).
Proof.
  rewrite scan_reading_empty.
  destruct (negb (dict_mem String.eqb scan ssid)); [| reflexivity].
  rewrite dict_set_twice. reflexivity.
Qed.

Lemma scan_pass_snoc (aps : list Reading) (ap : Reading) :
  forall scan,
    scan_pass [] scan (aps ++ [ap])
    = s <- scan_pass [] scan aps ;; scan_reading [] s ap.
Proof.
  induction aps as [| a aps IH]; intros scan; simpl.
  - destruct (scan_reading [] scan ap); reflexivity.
  - destruct (scan_reading [] scan a) as [s1 | e]; simpl; [apply IH | reflexivity].
Qed.

(** After a pass: distinct names, each name read in the pass holds the
    watts of its last reading, and a name not read holds nothing. *)
Lemma scan_pass_lookup (aps : list Reading) :
  exists scan,
    scan_pass [] [] aps = Ok scan
    /\ NoDup (dict_keys scan)
    /\ Forall (fun e => exists d, snd e = [signal_watts d]) scan
    /\ (forall ssid d pre post,
           aps = pre ++ (ssid, d) :: post ->
           (forall d', ~ In (ssid, d') post) ->
           dict_get String.eqb scan ssid = Some [signal_watts d])
    /\ (forall ssid, (forall d, ~ In (ssid, d) aps) ->
                     dict_get String.eqb scan ssid = None).
Proof.
  induction aps as [| [s sg] aps IH] using rev_ind.
  - exists []. simpl. repeat split; try constructor.
    intros ssid d pre post H. destruct pre; discriminate.
  - destruct IH as (scan & Hscan & Hnd & Hall & Hlast & Hnone).
    exists (dict_set String.eqb scan s [signal_watts sg]).
    rewrite scan_pass_snoc, Hscan. unfold py_bind at 1.
    rewrite scan_reading_overwrites.
    split; [reflexivity | split; [| split; [| split]]].
    + apply (dict_set_NoDup String.eqb string_eqb_spec). exact Hnd.
    + apply (dict_set_Forall (fun v => exists d, v = [signal_watts d]));
        [exact Hall | exists sg; reflexivity].
    + intros ssid d pre post Heq Hpost.
      destruct (list_eq_dec string_dec [s] [ssid]) as [Hs | Hs].
      * inversion Hs; subst ssid.
        rewrite (dict_get_set_same String.eqb string_eqb_spec).
        destruct post as [| p post'] using rev_ind.
        -- apply app_inj_tail in Heq. destruct Heq as [_ Heq].
           inversion Heq; subst. reflexivity.
        -- exfalso. rewrite app_comm_cons, app_assoc in Heq.
           apply app_inj_tail in Heq. destruct Heq as [_ Heq]. subst p.
           apply (Hpost sg). apply in_app_iff. right. left. reflexivity.
      * assert (Hne : s <> ssid) by congruence.
        rewrite (dict_get_set_other String.eqb string_eqb_spec) by exact Hne.
        destruct post as [| p post'] using rev_ind.
        -- apply app_inj_tail in Heq. destruct Heq as [_ Heq].
           inversion Heq; subst. congruence.
        -- rewrite app_comm_cons, app_assoc in Heq.
           apply app_inj_tail in Heq. destruct Heq as [Heq _].
           apply (Hlast ssid d pre post' Heq).
           intros d' Hd'. apply (Hpost d'). apply in_app_iff. left. exact Hd'.
    + intros ssid Hno.
      assert (Hne : s <> ssid).
      { intros ->. apply (Hno sg). apply in_app_iff. right. left. reflexivity. }
      rewrite (dict_get_set_other String.eqb string_eqb_spec) by exact Hne.
      apply Hnone. intros d Hd. apply (Hno d). apply in_app_iff. left. exact Hd.
Qed.

Lemma averaged_signals_from_lookup (items : list (string * list R)) :
  NoDup (dict_keys items) ->
  Forall (fun e => exists d, snd e = [signal_watts d]) items ->
  forall acc, NoDup (dict_keys acc) ->
    exists avg,
      averaged_signals_from items acc = Ok avg
      /\ NoDup (dict_keys avg)
      /\ (forall ssid d, dict_get String.eqb items ssid = Some [signal_watts d] ->
                         dict_get String.eqb avg ssid = Some d)
      /\ (forall ssid, dict_get String.eqb items ssid = None ->
                       dict_get String.eqb avg ssid = dict_get String.eqb acc ssid).
Proof.
  induction items as [| [k sigs] rest IH]; intros Hnd Hall acc Hacc.
  - exists acc. simpl. repeat split; auto. intros ssid d H. discriminate.
  - inversion Hnd as [| ? ? Hk Hnd']; subst.
    inversion Hall as [| ? ? [d0 Hd0] Hall']; subst. simpl in Hd0. subst sigs.
    simpl. rewrite average_dbm_single. simpl.
    destruct (IH Hnd' Hall' (dict_set String.eqb acc k d0)
                (dict_set_NoDup String.eqb string_eqb_spec acc k d0 Hacc))
      as (avg & Havg & Hnd2 & Hsome & Hnone).
    exists avg. split; [exact Havg | split; [exact Hnd2 | split]].
    + intros ssid d. destruct (String.eqb k ssid) eqn:E.
      * apply String.eqb_eq in E. subst ssid. intros H.
        assert (Hr : average_dbm [signal_watts d] = average_dbm [signal_watts d0])
          by (inversion H; reflexivity).
        rewrite !average_dbm_single in Hr. inversion Hr; subst d0.
        rewrite Hnone.
        -- apply (dict_get_set_same String.eqb string_eqb_spec).
        -- apply (dict_get_None String.eqb string_eqb_spec). exact Hk.
      * apply Hsome.
    + intros ssid. destruct (String.eqb k ssid) eqn:E; [discriminate |].
      intros H. rewrite (Hnone ssid H).
      apply (dict_get_set_other String.eqb string_eqb_spec).
      intros Heq. subst. rewrite String.eqb_refl in E. discriminate.
Qed.

(** The aggregate, name by name. *)
Lemma aggregate_scans_spec (f : nat -> list Reading) :
  exists avg,
    aggregate_scans f = Ok avg
    /\ NoDup (dict_keys avg)
    /\ (forall ssid d pre post,
           f 2%nat = pre ++ (ssid, d) :: post ->
           (forall d', ~ In (ssid, d') post) ->
           dict_get String.eqb avg ssid = Some d)
    /\ (forall ssid, (forall d, ~ In (ssid, d) (f 2%nat)) ->
                     dict_get String.eqb avg ssid = None).
Proof.
  rewrite aggregate_scans_third_pass.
  destruct (scan_pass_lookup (f 2%nat)) as (scan & Hscan & Hnd & Hall & Hlast & Hnone).
  rewrite Hscan. simpl.
  destruct (averaged_signals_from_lookup scan Hnd Hall [] (NoDup_nil _))
    as (avg & Havg & Hnd2 & Hs & Hn).
  exists avg. split; [exact Havg | split; [exact Hnd2 | split]].
  - intros ssid d pre post Heq Hpost. apply Hs. apply (Hlast ssid d pre post Heq Hpost).
  - intros ssid Hno. rewrite (Hn ssid (Hnone ssid Hno)). reflexivity.
Qed.

Lemma last_reading_exists (aps : list Reading) (ssid : string) :
  (forall d, ~ In (ssid, d) aps)
  \/ exists pre d post,
       aps = pre ++ (ssid, d) :: post /\ forall d', ~ In (ssid, d') post.
Proof.
  induction aps as [| [s0 sg] rest IH].
  - left. intros d [].
  - destruct IH as [Hnone | (pre & d & post & Heq & Hpost)].
    + destruct (string_dec s0 ssid) as [-> | Hne].
      * right. exists [], sg, rest. split; [reflexivity | exact Hnone].
      * left. intros d [H | H]; [inversion H; congruence | exact (Hnone d H)].
    + right. exists ((s0, sg) :: pre), d, post. rewrite Heq. auto.
Qed.

(** X3.  Whenever the aggregation of lines 206-230 returns, and the
    readings of the third pass lie between -3000 and 3000 dBm, the
    dictionary it returns has distinct names, a name is absent from it
    exactly when the third pass did not read it, and a name is mapped to
    a value exactly when that value is the signal strength of the last
    reading of the name in the third pass.  Floats are idealised as
    reals: in the code the value is that reading up to the rounding of
    its conversion to watts and back. *)
Theorem aggregate_scans_lookup (f : nat -> list Reading) (avg : dict string R) :
  aggregate_scans f = Ok avg ->
  (forall ssid d, In (ssid, d) (f 2%nat) -> -3000 <= d <= 3000) ->
  NoDup (dict_keys avg)
  /\ (forall ssid d,
         dict_get String.eqb avg ssid = Some d
         <-> exists pre post,
               f 2%nat = pre ++ (ssid, d) :: post
               /\ forall d', ~ In (ssid, d') post)
  /\ (forall ssid,
         dict_get String.eqb avg ssid = None
         <-> forall d, ~ In (ssid, d) (f 2%nat)).
Proof.
  intros Hrun _.
  destruct (aggregate_scans_spec f) as (avg' & Havg & Hnd & Hlast & Hnone).
  rewrite Hrun in Havg. inversion Havg; subst avg'. clear Havg.
  split; [exact Hnd | split].
  - intros ssid d. split.
    + intros Hget.
      destruct (last_reading_exists (f 2%nat) ssid)
        as [Hno | (pre & d0 & post & Heq & Hpost)].
      * rewrite (Hnone ssid Hno) in Hget. discriminate.
      * rewrite (Hlast ssid d0 pre post Heq Hpost) in Hget.
        inversion Hget; subst d0. exists pre, post. auto.
    + intros (pre & post & Heq & Hpost). apply (Hlast ssid d pre post Heq Hpost).
  - intros ssid. split; [| apply Hnone].
    intros Hget d Hin.
    destruct (last_reading_exists (f 2%nat) ssid)
      as [Hno | (pre & d0 & post & Heq & Hpost)].
    + exact (Hno d Hin).
    + rewrite (Hlast ssid d0 pre post Heq Hpost) in Hget. discriminate.
Qed.

Lemma aggregate_scans_lookup_witness :
  aggregate_scans (fun _ => [("A"%string, -40); ("B"%string, -55);
                             ("A"%string, -70)])
  = Ok [("A"%string, -70); ("B"%string, -55)]
  /\ dict_get String.eqb [("A"%string, -70); ("B"%string, -55)] "A"%string
     = Some (-70)
  /\ dict_get String.eqb [("A"%string, -70); ("B"%string, -55)] "C"%string
     = None.
Proof.
  assert (Hrun : aggregate_scans (fun _ => [("A"%string, -40); ("B"%string, -55);
                                            ("A"%string, -70)])
                 = Ok [("A"%string, -70); ("B"%string, -55)]).
  { rewrite aggregate_scans_third_pass.
    unfold scan_pass. rewrite !scan_reading_empty. simpl.
    rewrite !average_dbm_single. reflexivity. }
  destruct (aggregate_scans_lookup _ _ Hrun) as (_ & Hsome & Hnone).
  - intros ssid d [H | [H | [H | []]]]; inversion H; subst; lra.
  - split; [exact Hrun | split].
    + apply (Hsome "A"%string (-70)).
      exists [("A"%string, -40); ("B"%string, -55)], []. split.
      * reflexivity.
      * intros d' [].
    + apply Hnone. intros d [H | [H | [H | []]]]; discriminate.
Defined.

(** ** The store under the whole update loop *)

Lemma find_app_split {A : Type} (f : A -> bool) (l r : list A) :
  find f (l ++ r)
  = match find f l with
    | Some a => Some a
    | None => find f r
    end.
Proof.
  induction l as [| a l IH]; simpl; [reflexivity |].
  destruct (f a); [reflexivity | exact IH].
Qed.

(** The three shapes of the store after an [upsert]. *)
Lemma upsert_shape (x y : Z) (ssid : string) (v : R) (ms : list Measurement) :
  exists ms',
    upsert x y ssid v ms = Ok ms'
    /\ (ms' = ms
        \/ (existing_measurement x y ssid ms = None
            /\ ms' = ms ++ [(x, y, ssid, v)])
        \/ exists l1 e l2,
             ms = l1 ++ e :: l2
             /\ same_key x y ssid e = true
             /\ m_strength e < v
             /\ ms' = l1 ++ l2 ++ [(x, y, ssid, v)]).
Proof.
  pose proof (upsert_cases x y ssid v ms) as Hc.
  destruct (existing_measurement x y ssid ms) as [e |] eqn:E.
  - destruct Hc as [Hgt Hle].
    destruct (list_remove_existing _ _ _ _ _ E) as (_ & _ & _ & _ & He & _).
    destruct (Rlt_dec (m_strength e) v) as [Hlt | Hn].
    + destruct (Hgt Hlt) as (l1 & l2 & Hms & _ & Hup).
      eexists. split; [exact Hup |]. right. right. exists l1, e, l2. auto.
    + exists ms. split; [apply Hle; lra | left; reflexivity].
  - eexists. split; [exact Hc |]. right. left. auto.
Qed.

Lemma same_key_other (x y : Z) (ssid : string) (x' y' : Z) (ssid' : string)
  (m : Measurement) :
  (x', y', ssid') <> (x, y, ssid) ->
  same_key x y ssid m = true -> same_key x' y' ssid' m = false.
Proof.
  intros Hne Hm. apply same_key_spec in Hm. apply same_key_false. congruence.
Qed.

(** An [upsert] leaves the value stored for every other key as it was. *)
Lemma upsert_other_key (x y : Z) (ssid : string) (v : R) (ms ms' : list Measurement)
  (x' y' : Z) (ssid' : string) :
  (x', y', ssid') <> (x, y, ssid) ->
  upsert x y ssid v ms = Ok ms' ->
  stored_value x' y' ssid' ms' = stored_value x' y' ssid' ms.
Proof.
  intros Hne Hup.
  assert (Hnew : same_key x' y' ssid' (x, y, ssid, v) = false).
  { apply (same_key_other x y ssid); [exact Hne |].
    apply same_key_spec. reflexivity. }
  destruct (upsert_shape x y ssid v ms) as (ms1 & Hup1 & Hshape).
  rewrite Hup in Hup1. inversion Hup1; subst ms1. clear Hup1.
  unfold stored_value, existing_measurement.
  destruct Hshape as [-> | [[_ ->] | (l1 & e & l2 & -> & He & _ & ->)]].
  - reflexivity.
  - rewrite find_app_split. simpl. rewrite Hnew.
    destruct (find (same_key x' y' ssid') ms); reflexivity.
  - rewrite !find_app_split. simpl.
    rewrite (same_key_other x y ssid x' y' ssid' e Hne He), Hnew.
    destruct (find (same_key x' y' ssid') l1); [reflexivity |].
    destruct (find (same_key x' y' ssid') l2); reflexivity.
Qed.

(** X5.  The update loop of a scan at [(x, y)] always returns; every
    measurement of the store it returns was in the store before or is an
    averaged value of this scan placed at [(x, y)]; the measurements taken
    at every other location are the same, in the same order; and no key
    of the store is lost. *)
Theorem update_measurements_frame (x y : Z) (items : list (string * R)) :
  forall ms,
    exists ms',
      update_measurements x y items ms = Ok ms'
      /\ (forall m, In m ms' ->
            In m ms
            \/ exists ssid avg, In (ssid, avg) items /\ m = (x, y, ssid, avg))
      /\ filter (fun m => negb (Z.eqb (m_x m) x && Z.eqb (m_y m) y)) ms'
         = filter (fun m => negb (Z.eqb (m_x m) x && Z.eqb (m_y m) y)) ms
      /\ (forall k, In k (store_keys ms) -> In k (store_keys ms')).
Proof.
  induction items as [| [ssid avg] rest IH]; intros ms; simpl.
  - exists ms. repeat split; auto.
  - destruct (upsert_shape x y ssid avg ms) as (ms1 & Hup & Hshape).
    rewrite Hup. simpl.
    destruct (IH ms1) as (ms' & Hrun & Hprov & Hframe & Hkeys).
    exists ms'. split; [exact Hrun |].
    assert (Hloc : forall e, same_key x y ssid e = true ->
                             negb (Z.eqb (m_x e) x && Z.eqb (m_y e) y) = false).
    { intros e He. unfold same_key in He. apply andb_true_iff in He.
      destruct He as [He _]. rewrite He. reflexivity. }
    assert (Hnew : same_key x y ssid (x, y, ssid, avg) = true)
      by (apply same_key_spec; reflexivity).
    assert (H1 : (forall m, In m ms1 -> In m ms \/ m = (x, y, ssid, avg))
                 /\ filter (fun m => negb (Z.eqb (m_x m) x && Z.eqb (m_y m) y)) ms1
                    = filter (fun m => negb (Z.eqb (m_x m) x && Z.eqb (m_y m) y)) ms
                 /\ (forall k, In k (store_keys ms) -> In k (store_keys ms1))).
    { destruct Hshape as [-> | [[_ ->] | (l1 & e & l2 & -> & He & _ & ->)]].
      - auto.
      - split; [| split].
        + intros m Hm. apply in_app_iff in Hm. simpl in Hm.
          destruct Hm as [Hm | [Hm | []]]; auto.
        + rewrite filter_app. simpl. rewrite (Hloc _ Hnew). apply app_nil_r.
        + intros k Hk. rewrite store_keys_app. apply in_app_iff. auto.
      - split; [| split].
        + intros m Hm. rewrite !in_app_iff in Hm. simpl in Hm.
          rewrite in_app_iff. simpl.
          destruct Hm as [Hm | [Hm | [Hm | []]]]; auto.
        + rewrite !filter_app. simpl. rewrite (Hloc _ Hnew), (Hloc _ He).
          rewrite app_nil_r. reflexivity.
        + intros k Hk. rewrite store_keys_app in Hk. simpl in Hk.
          rewrite app_assoc, !store_keys_app. simpl.
          rewrite !in_app_iff in *. simpl in *.
          destruct Hk as [Hk | [Hk | Hk]]; auto.
          right. left. rewrite <- Hk. symmetry. apply same_key_spec. exact He. }
    destruct H1 as (Hp1 & Hf1 & Hk1). split; [| split].
    + intros m Hm. destruct (Hprov m Hm) as [Hin | (s0 & a0 & Hin & ->)].
      * destruct (Hp1 m Hin) as [H | ->]; [auto |].
        right. exists ssid, avg. auto.
      * right. exists s0, a0. auto.
    + rewrite Hframe. exact Hf1.
    + intros k Hk. apply Hkeys. apply Hk1. exact Hk.
Qed.

Lemma key_eq_dec (k k' : Z * Z * string) : {k = k'} + {k <> k'}.
Proof.
  destruct k as [[x y] s], k' as [[x' y'] s'].
  destruct (Z.eq_dec x x') as [-> |]; [| right; congruence].
  destruct (Z.eq_dec y y') as [-> |]; [| right; congruence].
  destruct (string_dec s s') as [-> |]; [left; reflexivity | right; congruence].
Qed.

(** The value stored for the key of an [upsert], exactly. *)
Lemma upsert_value (x y : Z) (ssid : string) (v : R) (ms : list Measurement) :
  unique_keys ms ->
  exists ms',
    upsert x y ssid v ms = Ok ms'
    /\ unique_keys ms'
    /\ stored_value x y ssid ms'
       = Some (match stored_value x y ssid ms with
               | Some old => if Rgtb v old then v else old
               | None => v
               end).
Proof.
  intros Hnd.
  destruct (upsert_unique x y ssid v ms Hnd) as (ms' & Hup & Hnd' & Hval).
  exists ms'. split; [exact Hup | split; [exact Hnd' |]].
  destruct (stored_value x y ssid ms) as [old |]; [| exact Hval].
  destruct Hval as [Hgt Hle]. destruct (Rgtb v old) eqn:E.
  - apply Hgt. apply Rgtb_true. exact E.
  - apply Hle. apply Rgtb_false. exact E.
Qed.

(** The update loop does not touch the value of a key it has no item for. *)
Lemma update_measurements_other_key (x y : Z) (items : list (string * R))
  (x' y' : Z) (ssid' : string) :
  (forall ssid avg, In (ssid, avg) items -> (x', y', ssid') <> (x, y, ssid)) ->
  forall ms ms',
    update_measurements x y items ms = Ok ms' ->
    stored_value x' y' ssid' ms' = stored_value x' y' ssid' ms.
Proof.
  induction items as [| [ssid avg] rest IH]; intros Hne ms ms'; simpl.
  - intros H; inversion H; reflexivity.
  - destruct (upsert_total x y ssid avg ms) as [ms1 H1]. rewrite H1. simpl.
    intros Hrun. rewrite (IH (fun s a Hin => Hne s a (or_intror Hin)) ms1 ms' Hrun).
    apply (upsert_other_key x y ssid avg ms ms1); [| exact H1].
    apply (Hne ssid avg). left. reflexivity.
Qed.

Lemma update_measurements_values (x y : Z) (items : list (string * R)) :
  NoDup (dict_keys items) ->
  forall ms,
    unique_keys ms ->
    exists ms',
      update_measurements x y items ms = Ok ms'
      /\ unique_keys ms'
      /\ forall ssid avg,
           In (ssid, avg) items ->
           stored_value x y ssid ms'
           = Some (match stored_value x y ssid ms with
                   | Some old => if Rgtb avg old then avg else old
                   | None => avg
                   end).
Proof.
  induction items as [| [s0 a0] rest IH]; intros Hitems ms Hnd; simpl.
  - exists ms. repeat split; auto. intros ssid avg [].
  - inversion Hitems as [| ? ? Hs0 Hrest]; subst.
    destruct (upsert_value x y s0 a0 ms Hnd) as (ms1 & H1 & Hnd1 & Hv1).
    rewrite H1. simpl.
    destruct (IH Hrest ms1 Hnd1) as (ms' & Hrun & Hnd' & Hvals).
    exists ms'. split; [exact Hrun | split; [exact Hnd' |]].
    intros ssid avg [Heq | Hin].
    + inversion Heq; subst ssid avg.
      rewrite (update_measurements_other_key x y rest x y s0) with (ms := ms1)
        by (try exact Hrun; intros s a Ha Hk; inversion Hk; subst;
            apply Hs0; change s with (fst (s, a)); apply in_map; exact Ha).
      exact Hv1.
    + rewrite (Hvals ssid avg Hin).
      assert (Hne : (x, y, ssid) <> (x, y, s0)).
      { intros Hk. inversion Hk; subst. apply Hs0.
        change s0 with (fst (s0, avg)). apply in_map. exact Hin. }
      rewrite (upsert_other_key x y s0 a0 ms ms1 x y ssid Hne H1). reflexivity.
Qed.

(** X6.  On a store with distinct keys and averaged values with distinct
    names, the update loop of a scan at [(x, y)] returns a store with
    distinct keys in which every averaged name holds, at [(x, y)], the
    greater of its averaged value and the value stored before (the
    averaged value when there was none), and every key the scan has no
    value for holds what it held. *)
Theorem update_measurements_stores_stronger
  (x y : Z) (items : list (string * R)) (ms : list Measurement) :
  NoDup (dict_keys items) ->
  unique_keys ms ->
  exists ms',
    update_measurements x y items ms = Ok ms'
    /\ unique_keys ms'
    /\ (forall ssid avg,
           In (ssid, avg) items ->
           stored_value x y ssid ms'
           = Some (match stored_value x y ssid ms with
                   | Some old => if Rgtb avg old then avg else old
                   | None => avg
                   end))
    /\ (forall x' y' ssid',
           (x', y') <> (x, y) \/ (forall avg, ~ In (ssid', avg) items) ->
           stored_value x' y' ssid' ms' = stored_value x' y' ssid' ms).
Proof.
  intros Hitems Hnd.
  destruct (update_measurements_values x y items Hitems ms Hnd)
    as (ms' & Hrun & Hnd' & Hvals).
  exists ms'. split; [exact Hrun | split; [exact Hnd' | split; [exact Hvals |]]].
  intros x' y' ssid' Hother.
  apply (update_measurements_other_key x y items x' y' ssid'); [| exact Hrun].
  intros ssid avg Hin Hk. inversion Hk; subst.
  destruct Hother as [Hloc | Hname]; [congruence | apply (Hname avg); exact Hin].
Qed.

Lemma update_measurements_stores_stronger_witness :
  exists ms',
    update_measurements 3 4 [("A"%string, -40)] [(3%Z, 4%Z, "A"%string, -50)]
    = Ok ms'
    /\ stored_value 3 4 "A" ms' = Some (-40).
Proof.
  destruct (update_measurements_stores_stronger 3 4 [("A"%string, -40)]
              [(3%Z, 4%Z, "A"%string, -50)])
    as (ms' & Hrun & _ & Hval & _).
  - repeat constructor. simpl. tauto.
  - repeat constructor. simpl. tauto.
  - exists ms'. split; [exact Hrun |].
    rewrite (Hval "A"%string (-40) (or_introl eq_refl)). simpl.
    unfold m_strength. simpl.
    assert (H : Rgtb (-40) (-50) = true) by (apply Rgtb_true; lra).
    rewrite H. reflexivity.
Defined.

(** X7.  Upserting the same value a second time changes nothing: on a
    store with distinct keys, the store an [upsert] returns is returned
    unchanged by the same [upsert] again. *)
Theorem upsert_idempotent (x y : Z) (ssid : string) (v : R)
  (ms ms' : list Measurement) :
  unique_keys ms ->
  upsert x y ssid v ms = Ok ms' ->
  upsert x y ssid v ms' = Ok ms'.
Proof.
  intros Hnd Hup.
  destruct (upsert_value x y ssid v ms Hnd) as (ms1 & Hup1 & _ & Hval).
  rewrite Hup in Hup1. inversion Hup1; subst ms1. clear Hup1.
  pose proof (upsert_cases x y ssid v ms') as Hc.
  unfold stored_value in Hval at 1.
  destruct (existing_measurement x y ssid ms') as [e |]; [| discriminate].
  simpl in Hval. destruct Hc as [_ Hle]. apply Hle.
  inversion Hval as [He]. clear Hval.
  destruct (stored_value x y ssid ms) as [old |]; [| lra].
  destruct (Rgtb v old) eqn:E; [lra |]. apply Rgtb_false in E. lra.
Qed.

Lemma upsert_idempotent_witness :
  upsert 10 10 "A" (-40) [(10%Z, 10%Z, "A"%string, -40)]
  = Ok [(10%Z, 10%Z, "A"%string, -40)].
Proof.
  apply (upsert_idempotent 10 10 "A" (-40) []).
  - constructor.
  - reflexivity.
Defined.

(** ** A whole scan *)

(** What the model of [perform_scan] computes. *)
Lemma perform_scan_result (f : nat -> list Reading) (x y : Z) (s : App) :
  (interface s = false -> perform_scan f x y s = Ok s)
  /\ (interface s = true ->
      unique_keys (measurements s) ->
      exists s',
        perform_scan f x y s = Ok s'
        /\ unique_keys (measurements s')
        /\ enabled_scans s' = true
        /\ (map_image_path s' = map_image_path s
            /\ interface s' = interface s
            /\ calibration_points s' = calibration_points s
            /\ pixels_per_meter s' = pixels_per_meter s
            /\ measurement_radius s' = measurement_radius s
            /\ is_calibrating s' = is_calibrating s)
        /\ (forall ssid d pre post,
               f 2%nat = pre ++ (ssid, d) :: post ->
               (forall d', ~ In (ssid, d') post) ->
               stored_value x y ssid (measurements s')
               = Some (match stored_value x y ssid (measurements s) with
                       | Some old => if Rgtb d old then d else old
                       | None => d
                       end))
        /\ (forall x' y' ssid',
               (x', y') <> (x, y) \/ (forall d, ~ In (ssid', d) (f 2%nat)) ->
               stored_value x' y' ssid' (measurements s')
               = stored_value x' y' ssid' (measurements s))).
Proof.
  unfold perform_scan. split.
  - intros Hi. rewrite Hi. reflexivity.
  - intros Hi Hnd. rewrite Hi. simpl negb. cbv iota.
    destruct (aggregate_scans_spec f) as (avg & Havg & Hkeys & Hlast & Hnone).
    rewrite Havg. unfold py_bind at 1.
    destruct (update_measurements_values x y avg Hkeys (measurements s) Hnd)
      as (ms' & Hrun & Hnd' & Hvals).
    rewrite Hrun. unfold py_bind.
    eexists. split; [reflexivity |]. simpl.
    split; [exact Hnd' | split; [reflexivity | split; [repeat split; exact Hi | split]]].
    + intros ssid d pre post Heq Hpost. apply Hvals.
      apply (dict_get_Some_In String.eqb string_eqb_spec).
      apply (Hlast ssid d pre post Heq Hpost).
    + intros x' y' ssid' Hother.
      apply (update_measurements_other_key x y avg x' y' ssid'); [| exact Hrun].
      intros ssid a Hin Hk. inversion Hk; subst.
      destruct Hother as [Hloc | Hname]; [congruence |].
      pose proof (Hnone ssid Hname) as Hg.
      apply (dict_get_None String.eqb string_eqb_spec) in Hg. apply Hg.
      change ssid with (fst (ssid, a)). apply in_map. exact Hin.
Qed.

(** X8.  Without an adapter, [perform_scan] returns the state as it is.
    With an adapter, on a store with distinct keys and readings of the
    third pass between -3000 and 3000 dBm, whenever it returns it returns
    a state with scanning enabled, the same map, adapter, calibration and
    radius, and a store with distinct keys in which every network read in
    the third pass holds, at the clicked location, the greater of its
    last reading in that pass and the value stored before, while every
    key at another location or of a network not read in the third pass
    holds what it held.  Floats are idealised as reals: in the code the
    value compared and stored is the last reading up to the rounding of
    its conversion to watts and back. *)
Theorem perform_scan_effect (f : nat -> list Reading) (x y : Z) (s : App) :
  (interface s = false -> perform_scan f x y s = Ok s)
  /\ (forall s',
         interface s = true ->
         unique_keys (measurements s) ->
         (forall ssid d, In (ssid, d) (f 2%nat) -> -3000 <= d <= 3000) ->
         perform_scan f x y s = Ok s' ->
         unique_keys (measurements s')
         /\ enabled_scans s' = true
         /\ (map_image_path s' = map_image_path s
             /\ interface s' = interface s
             /\ calibration_points s' = calibration_points s
             /\ pixels_per_meter s' = pixels_per_meter s
             /\ measurement_radius s' = measurement_radius s
             /\ is_calibrating s' = is_calibrating s)
         /\ (forall ssid d pre post,
                f 2%nat = pre ++ (ssid, d) :: post ->
                (forall d', ~ In (ssid, d') post) ->
                stored_value x y ssid (measurements s')
                = Some (match stored_value x y ssid (measurements s) with
                        | Some old => if Rgtb d old then d else old
                        | None => d
                        end))
         /\ (forall x' y' ssid',
                (x', y') <> (x, y) \/ (forall d, ~ In (ssid', d) (f 2%nat)) ->
                stored_value x' y' ssid' (measurements s')
                = stored_value x' y' ssid' (measurements s))).
Proof.
  destruct (perform_scan_result f x y s) as [Hoff Hon].
  split; [exact Hoff |].
  intros s' Hi Hnd _ Hrun.
  destruct (Hon Hi Hnd) as (s'' & Hrun' & Hres).
  rewrite Hrun in Hrun'. inversion Hrun'; subst s''. exact Hres.
Qed.

Lemma perform_scan_effect_witness :
  perform_scan (fun _ => [("A"%string, -40); ("A"%string, -70)]) 3 4
    (set_interface true init_app)
  = Ok (mkApp None [(3%Z, 4%Z, "A"%string, -70)] true true [] None 5 false)
  /\ stored_value 3 4 "A"
       (measurements
          (mkApp None [(3%Z, 4%Z, "A"%string, -70)] true true [] None 5 false))
     = Some (-70).
Proof.
  assert (Hrun : perform_scan (fun _ => [("A"%string, -40); ("A"%string, -70)]) 3 4
                   (set_interface true init_app)
                 = Ok (mkApp None [(3%Z, 4%Z, "A"%string, -70)] true true []
                         None 5 false)).
  { unfold perform_scan. simpl interface. simpl negb. cbv iota.
    rewrite aggregate_scans_third_pass.
    unfold scan_pass. rewrite !scan_reading_empty. simpl.
    rewrite average_dbm_single. reflexivity. }
  split; [exact Hrun |].
  destruct (proj2 (perform_scan_effect
                     (fun _ => [("A"%string, -40); ("A"%string, -70)]) 3 4
                     (set_interface true init_app))
              (mkApp None [(3%Z, 4%Z, "A"%string, -70)] true true [] None 5 false)
              eq_refl (NoDup_nil _))
    as (_ & _ & _ & Hlast & _).
  - intros ssid d [H | [H | []]]; inversion H; subst; lra.
  - exact Hrun.
  - apply (Hlast "A"%string (-70) [("A"%string, -40)] []).
    + reflexivity.
    + intros d' [].
Defined.

(** ** Calibration, further *)

Lemma pixel_distance_sym (p1 p2 : Z * Z) : pixel_distance p1 p2 = pixel_distance p2 p1.
Proof.
  unfold pixel_distance. do 2 f_equal. ring.
Qed.

Lemma pixel_distance_nonneg (p1 p2 : Z * Z) : 0 <= pixel_distance p1 p2.
Proof. unfold pixel_distance. apply sqrt_pos. Qed.

(** X9.  The scale does not depend on the order in which the two
    calibration points are clicked: from a fresh calibration, clicking
    the points in either order and confirming the same distance sets the
    same [pixels_per_meter]. *)
Theorem calibration_click_order (dialog0 dialog1 : option R) (distance : R)
  (x1 y1 x2 y2 : Z) (s : App) :
  calibration_points s = [] ->
  pixels_per_meter
    (handle_calibration_click (Some distance) x2 y2
       (handle_calibration_click dialog0 x1 y1 s))
  = pixels_per_meter
      (handle_calibration_click (Some distance) x1 y1
         (handle_calibration_click dialog1 x2 y2 s)).
Proof.
  intros Hpts.
  unfold handle_calibration_click, calculate_pixels_per_meter. simpl.
  rewrite Hpts. simpl.
  rewrite (pixel_distance_sym (x1, y1) (x2, y2)). reflexivity.
Qed.

Lemma calibration_click_order_witness :
  pixels_per_meter
    (handle_calibration_click (Some 10) 3 4
       (handle_calibration_click None 0 0 (load_map "map.png" init_app)))
  = pixels_per_meter
      (handle_calibration_click (Some 10) 0 0
         (handle_calibration_click None 3 4 (load_map "map.png" init_app))).
Proof.
  exact (calibration_click_order None None 10 0 0 3 4
           (load_map "map.png" init_app) eq_refl).
Defined.

(** [perform_scan] and the fields it leaves alone. *)
Lemma perform_scan_state (f : nat -> list Reading) (x y : Z) (s : App) :
  exists s',
    perform_scan f x y s = Ok s'
    /\ map_image_path s' = map_image_path s
    /\ interface s' = interface s
    /\ calibration_points s' = calibration_points s
    /\ pixels_per_meter s' = pixels_per_meter s
    /\ measurement_radius s' = measurement_radius s
    /\ is_calibrating s' = is_calibrating s
    /\ (unique_keys (measurements s) -> unique_keys (measurements s')).
Proof.
  unfold perform_scan. destruct (negb (interface s)).
  - exists s. repeat split; auto.
  - destruct (aggregate_scans_total f) as [avg Havg]. rewrite Havg. simpl.
    destruct (update_measurements_total x y avg (measurements s)) as [ms Hms].
    rewrite Hms. simpl. eexists. split; [reflexivity |]. simpl.
    repeat split. intros Hnd.
    apply (update_measurements_unique x y avg (measurements s) ms Hnd Hms).
Qed.

Lemma length_snoc_points (l : list (Z * Z)) (p : Z * Z) :
  List.length (l ++ [p]) = S (List.length l).
Proof. rewrite length_app. simpl. lia. Qed.

(** One action on a state that is calibrating with two points or more. *)
Lemma dispatch_keeps_calibrating (e : Event) (s : App) :
  is_calibrating s = true ->
  (2 <= List.length (calibration_points s))%nat ->
  (forall p, e = LoadMap p -> p = EmptyString) ->
  exists s',
    dispatch e s = Ok s'
    /\ is_calibrating s' = true
    /\ (2 <= List.length (calibration_points s'))%nat
    /\ pixels_per_meter s' = pixels_per_meter s
    /\ measurements s' = measurements s.
Proof.
  intros Hc Hlen Hload. destruct e as [ifs dlg | path | dlg | | dlg f lb x y]; simpl.
  - eexists. split; [reflexivity |]. unfold select_interface.
    destruct ifs; [auto |]. destruct dlg as [name |]; [| auto].
    destruct (String.eqb name EmptyString); auto.
  - rewrite (Hload path eq_refl). eexists. split; [reflexivity |]. simpl. auto.
  - eexists. split; [reflexivity |]. destruct dlg; simpl; auto.
  - eexists. split; [reflexivity |]. unfold toggle_scan.
    destruct (enabled_scans s); simpl; auto.
  - unfold record_click. destruct (map_image_path s) as [path |]; [| exists s; auto].
    destruct (String.eqb path EmptyString); [exists s; auto |].
    rewrite Hc. eexists. split; [reflexivity |].
    unfold handle_calibration_click. simpl. rewrite length_snoc_points.
    destruct (List.length (calibration_points s)) as [| [| n]] eqn:El; [lia | lia |].
    simpl. rewrite length_snoc_points, El. repeat split; auto; lia.
Qed.

(** X10.  Once the distance dialog has been cancelled with two points
    recorded, no click, toggle, radius or adapter action ever completes
    the calibration: until a new map is loaded the application stays in
    calibration, the scale stays what it was and no measurement is
    taken. *)
Theorem calibration_stays_open_after_cancel (es : list Event) :
  forall s,
    is_calibrating s = true ->
    (2 <= List.length (calibration_points s))%nat ->
    (forall p, In (LoadMap p) es -> p = EmptyString) ->
    exists s',
      run_events es s = Ok s'
      /\ is_calibrating s' = true
      /\ pixels_per_meter s' = pixels_per_meter s
      /\ measurements s' = measurements s.
Proof.
  induction es as [| e es IH]; intros s Hc Hlen Hload; simpl.
  - exists s. auto.
  - destruct (dispatch_keeps_calibrating e s Hc Hlen) as (s1 & H1 & Hc1 & Hl1 & Hp1 & Hm1).
    { intros p ->. apply Hload. left. reflexivity. }
    rewrite H1. simpl.
    destruct (IH s1 Hc1 Hl1) as (s' & Hrun & Hc' & Hp' & Hm').
    { intros p Hp. apply Hload. right. exact Hp. }
    exists s'. rewrite Hp', Hm'. auto.
Qed.

Lemma calibration_stays_open_after_cancel_witness :
  exists s',
    run_events
      [Click (Some 10) (fun _ => []) true 3 3; ToggleScan;
       Click (Some 10) (fun _ => []) true 4 4]
      (handle_calibration_click None 2 2
         (handle_calibration_click None 1 1 (load_map "map.png" init_app)))
    = Ok s'
    /\ is_calibrating s' = true
    /\ pixels_per_meter s' = None.
Proof.
  destruct (calibration_stays_open_after_cancel
              [Click (Some 10) (fun _ => []) true 3 3; ToggleScan;
               Click (Some 10) (fun _ => []) true 4 4]
              (handle_calibration_click None 2 2
                 (handle_calibration_click None 1 1
                    (load_map "map.png" init_app))))
    as (s' & Hrun & Hc & Hp & _).
  - reflexivity.
  - simpl. lia.
  - intros p [H | [H | [H | []]]]; discriminate.
  - exists s'. split; [exact Hrun | split; [exact Hc | exact Hp]].
Defined.

(** ** Every sequence of actions *)

Lemma session_invariant_init : session_invariant init_app.
Proof.
  unfold session_invariant, init_app, unique_keys. simpl.
  repeat split; try discriminate; try congruence; try lra.
  constructor.
Qed.

(** The invariant speaks of neither the calibration points nor the two
    flags nor the adapter. *)
Lemma session_invariant_ext (s s' : App) :
  measurements s' = measurements s ->
  pixels_per_meter s' = pixels_per_meter s ->
  measurement_radius s' = measurement_radius s ->
  map_image_path s' = map_image_path s ->
  (is_calibrating s' = false -> is_calibrating s = false) ->
  session_invariant s -> session_invariant s'.
Proof.
  unfold session_invariant. intros Hm Hp Hr Hmap Hc (I1 & I2 & I3 & I4 & I5 & I6).
  rewrite Hm, Hp, Hr, Hmap. repeat split; auto; lra.
Qed.

Lemma handle_calibration_click_invariant (dialog : option R) (x y : Z) (s : App) :
  match dialog with
  | Some distance => / 10 <= distance <= 1000
  | None => True
  end ->
  is_calibrating s = true ->
  session_invariant s ->
  session_invariant (handle_calibration_click dialog x y s).
Proof.
  intros Hd Hc Hinv. unfold handle_calibration_click. simpl.
  destruct (calibration_points s) as [| p1 [| p2 l]] eqn:Ep.
  - simpl. apply (session_invariant_ext s); auto; simpl; congruence.
  - simpl. destruct dialog as [distance |].
    + unfold calculate_pixels_per_meter. simpl.
      destruct Hinv as (I1 & I2 & I3 & I4 & I5 & I6).
      unfold session_invariant. simpl.
      rewrite np_true_divide_finite by lra.
      repeat split; auto; try discriminate; try lra.
      intros p Hp. inversion Hp; subst p. eexists. split; [reflexivity |].
      apply Rmult_le_pos; [apply pixel_distance_nonneg |].
      left. apply Rinv_0_lt_compat. lra.
    + apply (session_invariant_ext s); auto; simpl; congruence.
  - simpl. rewrite length_snoc_points. simpl.
    apply (session_invariant_ext s); auto; simpl; congruence.
Qed.

Lemma dispatch_invariant (e : Event) (s : App) :
  dialog_in_range e ->
  session_invariant s ->
  exists s', dispatch e s = Ok s' /\ session_invariant s'.
Proof.
  intros Hr Hinv. destruct e as [ifs dlg | path | dlg | | dlg f lb x y]; simpl.
  - eexists. split; [reflexivity |]. unfold select_interface.
    destruct ifs; [exact Hinv |]. destruct dlg as [name |]; [| exact Hinv].
    destruct (String.eqb name EmptyString); [exact Hinv |].
    apply (session_invariant_ext s); auto.
  - eexists. split; [reflexivity |]. unfold load_map.
    destruct (String.eqb path EmptyString) eqn:E; [exact Hinv |].
    destruct Hinv as (I1 & I2 & I3 & I4 & I5 & I6).
    unfold session_invariant. simpl. repeat split; auto; try discriminate; try lra.
    intros H. inversion H; subst. discriminate.
  - eexists. split; [reflexivity |]. destruct dlg as [radius |]; [| exact Hinv].
    simpl in Hr. destruct Hinv as (I1 & I2 & I3 & I4 & I5 & I6).
    unfold session_invariant. simpl. repeat split; auto; lra.
  - eexists. split; [reflexivity |]. unfold toggle_scan.
    destruct (enabled_scans s); apply (session_invariant_ext s); auto.
  - unfold record_click.
    destruct (map_image_path s) as [path |] eqn:Emap; [| exists s; auto].
    destruct (String.eqb path EmptyString); [exists s; auto |].
    destruct (is_calibrating s) eqn:Ec.
    + eexists. split; [reflexivity |].
      apply handle_calibration_click_invariant; auto.
    + destruct (lb && enabled_scans s); [| exists s; auto].
      destruct (perform_scan_state f x y s)
        as (s' & Hrun & Hmap & _ & _ & Hp & Hrad & Hcal & Hnd).
      exists s'. split; [exact Hrun |].
      destruct Hinv as (I1 & I2 & I3 & I4 & I5 & I6).
      assert (Hppm : pixels_per_meter s <> None)
        by (apply I3; [exact Ec | rewrite Emap; discriminate]).
      unfold session_invariant. rewrite Hmap, Hp, Hrad, Hcal, Emap.
      repeat split; auto; try lra.
      rewrite <- Emap. exact I6.
Qed.

Lemma run_events_keeps_invariant (es : list Event) :
  forall s0 s,
    Forall dialog_in_range es ->
    session_invariant s0 ->
    run_events es s0 = Ok s ->
    session_invariant s.
Proof.
  induction es as [| e es IH]; intros s0 s Hall Hinv; simpl.
  - intros H. inversion H; subst. exact Hinv.
  - inversion Hall as [| ? ? He Hes]; subst.
    destruct (dispatch_invariant e s0 He Hinv) as (s1 & H1 & Hinv1).
    rewrite H1. simpl. apply (IH s1 s Hes Hinv1).
Qed.

(** X11.  Whatever the user does from the start of the application (any
    sequence of adapter selections, map loads, radius changes, toggles
    and clicks, with the number dialogs answering within the ranges they
    are opened with), whenever the handlers have all returned the state
    reached satisfies: the store has distinct keys; there are
    measurements only if a scale has been set; out of calibration with a
    map loaded the scale is set; a scale that is set is a finite number
    that is not negative; the radius lies between 1 and 100; and the path
    of the map is not the empty string. *)
Theorem run_events_invariant (es : list Event) (s : App) :
  Forall dialog_in_range es ->
  run_events es init_app = Ok s ->
  session_invariant s.
Proof.
  intros Hall Hrun.
  apply (run_events_keeps_invariant es init_app s Hall session_invariant_init Hrun).
Qed.

Lemma run_events_invariant_witness :
  run_events
    [SelectInterface ["wlan0"%string] (Some "wlan0"%string);
     LoadMap "map.png";
     Click None (fun _ => []) true 0 0;
     Click (Some 10) (fun _ => []) true 3 4;
     SetMeasurementRadius (Some 7);
     Click None (fun _ => [("A"%string, -50)]) true 7 7]
    init_app
  = Ok (mkApp (Some "map.png"%string) [(7%Z, 7%Z, "A"%string, -50)] true true
          [(0%Z, 0%Z); (3%Z, 4%Z)]
          (Some (np_true_divide (pixel_distance (0%Z, 0%Z) (3%Z, 4%Z)) 10))
          7 false)
  /\ session_invariant
       (mkApp (Some "map.png"%string) [(7%Z, 7%Z, "A"%string, -50)] true true
          [(0%Z, 0%Z); (3%Z, 4%Z)]
          (Some (np_true_divide (pixel_distance (0%Z, 0%Z) (3%Z, 4%Z)) 10))
          7 false).
Proof.
  assert (Hrun :
    run_events
      [SelectInterface ["wlan0"%string] (Some "wlan0"%string);
       LoadMap "map.png";
       Click None (fun _ => []) true 0 0;
       Click (Some 10) (fun _ => []) true 3 4;
       SetMeasurementRadius (Some 7);
       Click None (fun _ => [("A"%string, -50)]) true 7 7]
      init_app
    = Ok (mkApp (Some "map.png"%string) [(7%Z, 7%Z, "A"%string, -50)] true true
            [(0%Z, 0%Z); (3%Z, 4%Z)]
            (Some (np_true_divide (pixel_distance (0%Z, 0%Z) (3%Z, 4%Z)) 10))
            7 false)).
  { unfold run_events, dispatch, py_bind.
    unfold record_click, perform_scan. simpl.
    rewrite aggregate_scans_third_pass.
    unfold scan_pass. rewrite scan_reading_empty. simpl.
    rewrite average_dbm_single. reflexivity. }
  split; [exact Hrun |].
  apply (fun Hall => run_events_invariant _ _ Hall Hrun).
  repeat constructor; simpl; lra.
Defined.

(** ** The grid and the field, further *)

Lemma np_arange_zero_step (start stop : R) :
  np_arange start stop 0 = Raise ValueError.
Proof.
  unfold np_arange. destruct (Req_dec_T 0 0); [reflexivity | congruence].
Qed.

Lemma np_arange_nonzero_step (start stop step : R) :
  step <> 0 -> exists l, np_arange start stop step = Ok l.
Proof.
  intros Hs. unfold np_arange.
  destruct (Req_dec_T step 0); [contradiction | eexists; reflexivity].
Qed.

(** X12.  A grid step of zero (a scale of zero, as two identical
    calibration points give, or a radius of zero) makes the grid
    construction raise, and [plot_heatmap] with it, before any fit is
    attempted and whatever the samples are; with any other step the grid
    is built. *)
Theorem zero_grid_step_raises (width height : Z) (radius ppm : R) :
  (radius * ppm = 0 ->
   interpolation_grid width height radius ppm = Raise ValueError
   /\ forall Rbf x_coords y_coords strengths,
        plot_heatmap Rbf width height radius ppm x_coords y_coords strengths
        = Raise ValueError)
  /\ (radius * ppm <> 0 ->
      exists x_grid y_grid,
        interpolation_grid width height radius ppm = Ok (x_grid, y_grid)).
Proof.
  split.
  - intros H0.
    assert (Hg : interpolation_grid width height radius ppm = Raise ValueError).
    { unfold interpolation_grid. rewrite H0, np_arange_zero_step. reflexivity. }
    split; [exact Hg |]. intros Rbf xs ys st.
    unfold plot_heatmap, raw_field. rewrite Hg. reflexivity.
  - intros Hne. unfold interpolation_grid.
    destruct (np_arange_nonzero_step 0 (IZR width) _ Hne) as [xg Hx].
    destruct (np_arange_nonzero_step 0 (IZR height) _ Hne) as [yg Hy].
    rewrite Hx, Hy. simpl. exists xg, yg. reflexivity.
Qed.

Lemma zero_grid_step_raises_witness :
  plot_heatmap (fun _ _ _ _ => Ok (fun x y => x + y)) 800 600 5 0
    [10%Z] [10%Z] [-50]
  = Raise ValueError.
Proof.
  apply (proj1 (zero_grid_step_raises 800 600 5 0)); lra.
Defined.

Lemma np_arange_single (stop step : R) :
  0 < stop -> stop <= step -> np_arange 0 stop step = Ok [0].
Proof.
  intros Hs Hle. unfold np_arange.
  destruct (Req_dec_T step 0) as [H0 | _]; [lra |].
  rewrite Rminus_0_r.
  assert (Hc : np_ceil (stop / step) = 1%Z).
  { apply np_ceil_unique.
    assert (Hq : 0 < stop / step) by (apply Rdiv_lt_0_compat; lra).
    split; [lra |].
    apply Rmult_le_reg_r with step; [lra |].
    replace (stop / step * step) with stop by (field; lra). lra. }
  rewrite Hc. simpl. do 2 f_equal. lra.
Qed.

(** X13.  When the grid step is at least the width and the height of a
    non-empty map, the grid has the single point (0, 0), and
    [plot_heatmap] yields the single value [- rbf 0 0] of a successful
    fit. *)
Theorem plot_heatmap_single_cell
  (Rbf : list R -> list R -> list R -> R -> py (R -> R -> R))
  (width height : Z) (radius ppm : R)
  (x_coords y_coords : list Z) (strengths : list R) (rbf : R -> R -> R) :
  (0 < width)%Z -> (0 < height)%Z ->
  IZR width <= radius * ppm -> IZR height <= radius * ppm ->
  Rbf (map IZR x_coords) (map IZR y_coords) strengths (radius * ppm) = Ok rbf ->
  interpolation_grid width height radius ppm = Ok ([0], [0])
  /\ plot_heatmap Rbf width height radius ppm x_coords y_coords strengths
     = Ok [[- rbf 0 0]].
Proof.
  intros Hw Hh Hws Hhs Hfit.
  apply IZR_lt in Hw. apply IZR_lt in Hh.
  assert (Hg : interpolation_grid width height radius ppm = Ok ([0], [0])).
  { unfold interpolation_grid.
    rewrite (np_arange_single _ _ Hw Hws), (np_arange_single _ _ Hh Hhs).
    reflexivity. }
  split; [exact Hg |].
  unfold plot_heatmap, raw_field. rewrite Hg. simpl. rewrite Hfit. reflexivity.
Qed.

Lemma plot_heatmap_single_cell_witness :
  plot_heatmap (fun _ _ _ _ => Ok (fun x y => x + y - 50)) 30 20 5 10
    [10%Z] [10%Z] [-50]
  = Ok [[- (0 + 0 - 50)]].
Proof.
  apply (plot_heatmap_single_cell
           (fun _ _ _ _ => Ok (fun x y => x + y - 50)) 30 20 5 10
           [10%Z] [10%Z] [-50] (fun x y => x + y - 50));
    try reflexivity; lra.
Defined.

(** ** The sample query on the store, and [generate_heatmap] *)

Lemma dict_set_absent_append (d : dict (Z * Z) R) (k : Z * Z) (v : R) :
  dict_get location_eqb d k = None ->
  dict_set location_eqb d k v = d ++ [(k, v)].
Proof.
  induction d as [| [k' v'] r IH]; simpl; [reflexivity |].
  destruct (location_eqb k' k); [discriminate |].
  intros H. rewrite (IH H). reflexivity.
Qed.

Lemma unique_keys_snoc (ms : list Measurement) (m : Measurement) :
  unique_keys (ms ++ [m]) -> unique_keys ms /\ ~ In (fst m) (store_keys ms).
Proof.
  unfold unique_keys. rewrite store_keys_app. simpl. intros H.
  apply NoDup_remove in H. rewrite app_nil_r in H. exact H.
Qed.

(** X15.  On a store with distinct keys the sample query has nothing to
    deduplicate: it returns the locations and strengths of the
    measurements of the network, one entry per measurement, in the order
    of the store. *)
Theorem filtered_measurements_of_unique_store
  (ssid : string) (ms : list Measurement) :
  unique_keys ms ->
  filtered_measurements ssid ms
  = map (fun m => ((m_x m, m_y m), m_strength m))
        (filter (fun m => String.eqb (m_ssid m) ssid) ms).
Proof.
  induction ms as [| m ms IH] using rev_ind; intros Hnd; [reflexivity |].
  apply unique_keys_snoc in Hnd. destruct Hnd as [Hnd Hfresh].
  specialize (IH Hnd).
  pose proof (filtered_measurements_spec ssid ms) as [_ Hspec].
  unfold filtered_measurements in *. rewrite fold_left_app. simpl.
  rewrite filter_app, map_app.
  set (fm := fold_left (filter_step ssid) ms []) in *.
  destruct m as [[[mx my] s0] mv].
  unfold filter_step, m_ssid, m_x, m_y, m_strength. simpl.
  destruct (String.eqb s0 ssid) eqn:Es; simpl.
  - apply String.eqb_eq in Es. subst s0.
    specialize (Hspec mx my).
    destruct (dict_get location_eqb fm (mx, my)) as [old |] eqn:G.
    + exfalso. apply Hfresh. destruct Hspec as [Hin _].
      change (fst (mx, my, ssid, mv)) with (fst (mx, my, ssid, old)).
      apply in_map. exact Hin.
    + rewrite (dict_set_absent_append _ _ _ G), IH. reflexivity.
  - rewrite app_nil_r. exact IH.
Qed.

Lemma filtered_measurements_of_unique_store_witness :
  filtered_measurements "A"
    [(1%Z, 1%Z, "A"%string, -50); (1%Z, 1%Z, "B"%string, -60);
     (2%Z, 5%Z, "A"%string, -40)]
  = map (fun m => ((m_x m, m_y m), m_strength m))
        (filter (fun m => String.eqb (m_ssid m) "A")
           [(1%Z, 1%Z, "A"%string, -50); (1%Z, 1%Z, "B"%string, -60);
            (2%Z, 5%Z, "A"%string, -40)]).
Proof.
  apply filtered_measurements_of_unique_store.
  unfold unique_keys. simpl.
  repeat constructor; simpl; intuition discriminate.
Defined.

Lemma ssid_choices_In (ms : list Measurement) (ssid : string) :
  In ssid (ssid_choices ms) <-> exists m, In m ms /\ m_ssid m = ssid.
Proof.
  unfold ssid_choices. rewrite nodup_In, in_map_iff.
  split; intros (m & H1 & H2); exists m; auto.
Qed.

Lemma filtered_measurements_nonempty (ssid : string) (ms : list Measurement)
  (m : Measurement) :
  In m ms -> m_ssid m = ssid -> filtered_measurements ssid ms <> [].
Proof.
  intros Hin Hs Hnil. destruct m as [[[x y] s0] v].
  unfold m_ssid in Hs. simpl in Hs. subst s0.
  pose proof (filtered_measurements_spec ssid ms) as [_ Hspec].
  specialize (Hspec x y). rewrite Hnil in Hspec. simpl in Hspec.
  apply (Hspec v). exact Hin.
Qed.

Lemma filtered_measurements_empty (ssid : string) (ms : list Measurement) :
  (forall m, In m ms -> m_ssid m <> ssid) -> filtered_measurements ssid ms = [].
Proof.
  intros Hno.
  pose proof (filtered_measurements_spec ssid ms) as [_ Hspec].
  destruct (filtered_measurements ssid ms) as [| [[x y] v] r]; [reflexivity |].
  specialize (Hspec x y). simpl in Hspec.
  assert (E : location_eqb (x, y) (x, y) = true)
    by (apply location_eqb_spec; reflexivity).
  rewrite E in Hspec. destruct Hspec as [Hin _].
  exfalso. apply (Hno _ Hin). reflexivity.
Qed.

(** X16.  [generate_heatmap] returns without plotting when the store is
    empty or the selection is cancelled.  When the dialog answers with a
    name of the store, the samples are not empty and it hands their x
    coordinates, y coordinates and strengths, three lists of one length,
    to [plot_heatmap]; it then never raises.  A name without any
    measurement would make the unpacking of line 286 raise. *)
Theorem generate_heatmap_outcome (dialog : list string -> option string) (s : App) :
  (measurements s = [] -> generate_heatmap dialog s = Ok None)
  /\ (dialog (ssid_choices (measurements s)) = None ->
      generate_heatmap dialog s = Ok None)
  /\ (forall ssid,
         dialog (ssid_choices (measurements s)) = Some ssid ->
         ssid <> EmptyString ->
         In ssid (ssid_choices (measurements s)) ->
         let fm := filtered_measurements ssid (measurements s) in
         fm <> []
         /\ generate_heatmap dialog s
            = Ok (Some (map (fun e => fst (fst e)) fm,
                        map (fun e => snd (fst e)) fm,
                        map snd fm, ssid))
         /\ List.length (map (fun e => fst (fst e)) fm) = List.length fm
         /\ List.length (map (fun e => snd (fst e)) fm) = List.length fm
         /\ List.length (map snd fm) = List.length fm)
  /\ (forall ssid,
         dialog (ssid_choices (measurements s)) = Some ssid ->
         ssid <> EmptyString ->
         measurements s <> [] ->
         (forall m, In m (measurements s) -> m_ssid m <> ssid) ->
         generate_heatmap dialog s = Raise ValueError).
Proof.
  unfold generate_heatmap. split; [| split; [| split]].
  - intros Hm. rewrite Hm. reflexivity.
  - intros Hd. destruct (ssid_choices (measurements s)); [reflexivity |].
    rewrite Hd. reflexivity.
  - intros ssid Hd Hne Hin. cbv zeta.
    apply ssid_choices_In in Hin as Hm. destruct Hm as (m & Hm & Hs).
    pose proof (filtered_measurements_nonempty ssid _ m Hm Hs) as Hfm.
    split; [exact Hfm |]. split; [| rewrite !length_map; auto].
    destruct (ssid_choices (measurements s)) as [| c cs]; [destruct Hin |].
    rewrite Hd.
    assert (E : String.eqb ssid EmptyString = false).
    { destruct (String.eqb ssid EmptyString) eqn:E; [| reflexivity].
      apply String.eqb_eq in E. contradiction. }
    rewrite E. unfold sample_coords.
    destruct (filtered_measurements ssid (measurements s)); [congruence |].
    reflexivity.
  - intros ssid Hd Hne Hms Hno.
    assert (Hc : ssid_choices (measurements s) <> []).
    { destruct (measurements s) as [| m ms]; [congruence |].
      intros Hnil.
      assert (Hin : In (m_ssid m) (ssid_choices (m :: ms)))
        by (apply ssid_choices_In; exists m; split; [left |]; reflexivity).
      rewrite Hnil in Hin. destruct Hin. }
    destruct (ssid_choices (measurements s)) as [| c cs]; [congruence |].
    rewrite Hd.
    assert (E : String.eqb ssid EmptyString = false).
    { destruct (String.eqb ssid EmptyString) eqn:E; [| reflexivity].
      apply String.eqb_eq in E. contradiction. }
    rewrite E, (filtered_measurements_empty ssid _ Hno). reflexivity.
Qed.

Lemma generate_heatmap_outcome_witness :
  generate_heatmap (fun _ => Some "A"%string)
    (set_measurements [(1%Z, 2%Z, "A"%string, -50)] init_app)
  = Ok (Some ([1%Z], [2%Z], [-50], "A"%string)).
Proof.
  destruct (proj1 (proj2 (proj2
              (generate_heatmap_outcome (fun _ => Some "A"%string)
                 (set_measurements [(1%Z, 2%Z, "A"%string, -50)] init_app))))
              "A"%string eq_refl ltac:(discriminate)
              ltac:(simpl; left; reflexivity))
    as (_ & H & _).
  exact H.
Defined.

(** ** What a click and a session do to the store *)

Lemma handle_calibration_click_measurements (dialog : option R) (x y : Z) (s : App) :
  measurements (handle_calibration_click dialog x y s) = measurements s.
Proof.
  unfold handle_calibration_click, calculate_pixels_per_meter. simpl.
  destruct (List.length (calibration_points s ++ [(x, y)])) as [| [| [| n]]];
    try reflexivity.
  destruct dialog; [| reflexivity].
  destruct (calibration_points s ++ [(x, y)]) as [| p1 [| p2 [| p3 l]]];
    reflexivity.
Qed.

(** X17.  A click changes the store only as a scan: whenever
    [record_click] returns with a store that differs from the store
    before, a map was loaded, the application was not calibrating, the
    click was a left click, scanning was enabled and an adapter was
    selected. *)
Theorem record_click_changes_store_only_by_scan
  (dialog : option R) (f : nat -> list Reading) (left_button : bool)
  (x y : Z) (s s' : App) :
  record_click dialog f left_button x y s = Ok s' ->
  measurements s' <> measurements s ->
  map_image_path s <> None
  /\ is_calibrating s = false
  /\ left_button = true
  /\ enabled_scans s = true
  /\ interface s = true.
Proof.
  unfold record_click.
  destruct (map_image_path s) as [path |] eqn:Emap;
    [| intros H; inversion H; subst; congruence].
  destruct (String.eqb path EmptyString);
    [intros H; inversion H; subst; congruence |].
  destruct (is_calibrating s) eqn:Ec.
  - intros H. inversion H; subst.
    rewrite handle_calibration_click_measurements. congruence.
  - destruct left_button; simpl;
      [| intros H; inversion H; subst; congruence].
    destruct (enabled_scans s) eqn:Ee;
      [| intros H; inversion H; subst; congruence].
    intros Hrun Hchg. repeat split; try discriminate.
    destruct (interface s) eqn:Ei; [reflexivity |].
    unfold perform_scan in Hrun. rewrite Ei in Hrun. simpl in Hrun.
    inversion Hrun; subst. congruence.
Qed.

Lemma perform_scan_never_weakens (f : nat -> list Reading) (x y : Z) (s : App) :
  unique_keys (measurements s) ->
  exists s',
    perform_scan f x y s = Ok s'
    /\ unique_keys (measurements s')
    /\ forall x' y' ssid' old,
         stored_value x' y' ssid' (measurements s) = Some old ->
         exists new,
           stored_value x' y' ssid' (measurements s') = Some new /\ old <= new.
Proof.
  intros Hnd. unfold perform_scan. destruct (negb (interface s)).
  - exists s. split; [reflexivity | split; [exact Hnd |]].
    intros x' y' ssid' old H. exists old. split; [exact H | lra].
  - destruct (aggregate_scans_spec f) as (avg & Havg & Hkeys & _).
    rewrite Havg. unfold py_bind at 1.
    destruct (update_measurements_values x y avg Hkeys (measurements s) Hnd)
      as (ms' & Hrun & Hnd' & Hvals).
    rewrite Hrun. unfold py_bind.
    eexists. split; [reflexivity |]. simpl. split; [exact Hnd' |].
    intros x' y' ssid' old Hold.
    destruct (key_eq_dec (x', y', ssid') (x, y, ssid')) as [Hk | Hk].
    + inversion Hk; subst x' y'.
      destruct (dict_get String.eqb avg ssid') as [a |] eqn:G.
      * apply (dict_get_Some_In String.eqb string_eqb_spec) in G.
        rewrite (Hvals ssid' a G), Hold.
        destruct (Rgtb a old) eqn:E.
        -- apply Rgtb_true in E. exists a. split; [reflexivity | lra].
        -- exists old. split; [reflexivity | lra].
      * exists old. split; [| lra]. rewrite <- Hold.
        apply (update_measurements_other_key x y avg x y ssid'); [| exact Hrun].
        intros ssid a Hin Heq. inversion Heq; subst.
        apply (dict_get_None String.eqb string_eqb_spec) in G. apply G.
        change ssid with (fst (ssid, a)). apply in_map. exact Hin.
    + exists old. split; [| lra]. rewrite <- Hold.
      apply (update_measurements_other_key x y avg x' y' ssid'); [| exact Hrun].
      intros ssid a Hin Heq. inversion Heq; subst. congruence.
Qed.

Lemma dispatch_never_weakens (e : Event) (s : App) :
  unique_keys (measurements s) ->
  exists s',
    dispatch e s = Ok s'
    /\ unique_keys (measurements s')
    /\ forall x' y' ssid' old,
         stored_value x' y' ssid' (measurements s) = Some old ->
         exists new,
           stored_value x' y' ssid' (measurements s') = Some new /\ old <= new.
Proof.
  intros Hnd.
  assert (Hsame : forall s', measurements s' = measurements s ->
            unique_keys (measurements s')
            /\ forall x' y' ssid' old,
                 stored_value x' y' ssid' (measurements s) = Some old ->
                 exists new,
                   stored_value x' y' ssid' (measurements s') = Some new
                   /\ old <= new).
  { intros s' Hm. rewrite Hm. split; [exact Hnd |].
    intros x' y' ssid' old H. exists old. split; [exact H | lra]. }
  destruct e as [ifs dlg | path | dlg | | dlg f lb x y]; simpl.
  - eexists. split; [reflexivity |]. apply Hsame. unfold select_interface.
    destruct ifs; [reflexivity |]. destruct dlg as [name |]; [| reflexivity].
    destruct (String.eqb name EmptyString); reflexivity.
  - eexists. split; [reflexivity |]. apply Hsame. unfold load_map.
    destruct (String.eqb path EmptyString); reflexivity.
  - eexists. split; [reflexivity |]. apply Hsame. destruct dlg; reflexivity.
  - eexists. split; [reflexivity |]. apply Hsame. unfold toggle_scan.
    destruct (enabled_scans s); reflexivity.
  - unfold record_click.
    destruct (map_image_path s) as [path |]; [| exists s; split; auto].
    destruct (String.eqb path EmptyString); [exists s; split; auto |].
    destruct (is_calibrating s).
    + eexists. split; [reflexivity |]. apply Hsame.
      apply handle_calibration_click_measurements.
    + destruct (lb && enabled_scans s); [| exists s; split; auto].
      apply perform_scan_never_weakens. exact Hnd.
Qed.

(** The store along the model of a sequence of actions. *)
Lemma run_events_store_model (es : list Event) :
  forall s,
    unique_keys (measurements s) ->
    exists s',
      run_events es s = Ok s'
      /\ unique_keys (measurements s')
      /\ forall x y ssid old,
           stored_value x y ssid (measurements s) = Some old ->
           exists new,
             stored_value x y ssid (measurements s') = Some new /\ old <= new.
Proof.
  induction es as [| e es IH]; intros s Hnd; simpl.
  - exists s. split; [reflexivity | split; [exact Hnd |]].
    intros x y ssid old H. exists old. split; [exact H | lra].
  - destruct (dispatch_never_weakens e s Hnd) as (s1 & H1 & Hnd1 & Hmono1).
    rewrite H1. simpl.
    destruct (IH s1 Hnd1) as (s' & Hrun & Hnd' & Hmono).
    exists s'. split; [exact Hrun | split; [exact Hnd' |]].
    intros x y ssid old Hold.
    destruct (Hmono1 x y ssid old Hold) as (mid & Hmid & Hle1).
    destruct (Hmono x y ssid mid Hmid) as (new & Hnew & Hle2).
    exists new. split; [exact Hnew | lra].
Qed.

(** X18.  No sequence of actions removes or weakens a stored
    measurement, not even loading a new map: starting from a store with
    distinct keys, whenever the handlers have all returned the store has
    distinct keys and every key that held a value holds one that is at
    least as great. *)
Theorem run_events_never_weakens (es : list Event) (s s' : App) :
  unique_keys (measurements s) ->
  run_events es s = Ok s' ->
  unique_keys (measurements s')
  /\ forall x y ssid old,
       stored_value x y ssid (measurements s) = Some old ->
       exists new,
         stored_value x y ssid (measurements s') = Some new /\ old <= new.
Proof.
  intros Hnd Hrun.
  destruct (run_events_store_model es s Hnd) as (s'' & Hrun' & Hres).
  rewrite Hrun in Hrun'. inversion Hrun'; subst s''. exact Hres.
Qed.

Lemma run_events_never_weakens_witness :
  run_events
    [Click None (fun _ => [("A"%string, -70)]) true 1 2; LoadMap "other.png"]
    (mkApp (Some "map.png"%string) [(1%Z, 2%Z, "A"%string, -50)] true true []
       (Some (Finite 1)) 5 false)
  = Ok (mkApp (Some "other.png"%string) [(1%Z, 2%Z, "A"%string, -50)] true true
          [] (Some (Finite 1)) 5 true)
  /\ exists new,
       stored_value 1 2 "A"
         (measurements
            (mkApp (Some "other.png"%string) [(1%Z, 2%Z, "A"%string, -50)]
               true true [] (Some (Finite 1)) 5 true))
       = Some new
       /\ -50 <= new.
Proof.
  assert (Hrun :
    run_events
      [Click None (fun _ => [("A"%string, -70)]) true 1 2; LoadMap "other.png"]
      (mkApp (Some "map.png"%string) [(1%Z, 2%Z, "A"%string, -50)] true true []
         (Some (Finite 1)) 5 false)
    = Ok (mkApp (Some "other.png"%string) [(1%Z, 2%Z, "A"%string, -50)] true
            true [] (Some (Finite 1)) 5 true)).
  { unfold run_events, dispatch, record_click, perform_scan. simpl.
    rewrite aggregate_scans_third_pass.
    unfold scan_pass. rewrite scan_reading_empty. simpl.
    rewrite average_dbm_single. simpl.
    unfold upsert. simpl. unfold m_strength. simpl.
    assert (H70 : Rgtb (-70) (-50) = false) by (apply Rgtb_false; lra).
    rewrite H70. reflexivity. }
  split; [exact Hrun |].
  assert (Hnd : unique_keys
                  (measurements
                     (mkApp (Some "map.png"%string)
                        [(1%Z, 2%Z, "A"%string, -50)] true true []
                        (Some (Finite 1)) 5 false))).
  { unfold unique_keys. simpl. repeat constructor. simpl. tauto. }
  destruct (run_events_never_weakens _ _ _ Hnd Hrun) as [_ Hmono].
  apply (Hmono 1%Z 2%Z "A"%string (-50)). reflexivity.
Defined.

(** ** The averages of line 229 on any dictionary of watt lists *)

Lemma py_sum_nonneg (ws : list R) :
  (forall w, In w ws -> 0 < w) -> 0 <= py_sum ws.
Proof.
  unfold py_sum. induction ws as [| w ws IH]; intros Hall; simpl; [lra |].
  rewrite py_sum_acc.
  assert (0 < w) by (apply Hall; left; reflexivity).
  assert (0 <= fold_left Rplus ws 0) by (apply IH; intros; apply Hall; right; assumption).
  lra.
Qed.

Lemma average_dbm_defined (w : R) (ws : list R) :
  (forall w', In w' (w :: ws) -> 0 < w') ->
  exists v, average_dbm (w :: ws) = Ok v.
Proof.
  intros Hall. unfold average_dbm.
  assert (Hs : 0 < py_sum (w :: ws)).
  { unfold py_sum. simpl. rewrite py_sum_acc.
    assert (0 < w) by (apply Hall; left; reflexivity).
    assert (0 <= py_sum ws) by (apply py_sum_nonneg; intros; apply Hall; right; assumption).
    unfold py_sum in *. lra. }
  assert (Hl : 0 < py_len (w :: ws)).
  { unfold py_len. apply lt_0_INR. simpl. lia. }
  rewrite math_log10_pos.
  - eexists. reflexivity.
  - apply Rmult_lt_0_compat; [apply Rdiv_lt_0_compat; assumption | lra].
Qed.

Lemma averaged_signals_from_general (items : list (string * list R)) :
  NoDup (dict_keys items) ->
  (forall k sigs w, In (k, sigs) items -> In w sigs -> 0 < w) ->
  forall acc,
    exists avg,
      averaged_signals_from items acc = Ok avg
      /\ (forall ssid,
             dict_get String.eqb items ssid = Some []
             \/ dict_get String.eqb items ssid = None ->
             dict_get String.eqb avg ssid = dict_get String.eqb acc ssid)
      /\ (forall ssid sigs,
             dict_get String.eqb items ssid = Some sigs -> sigs <> [] ->
             exists v, average_dbm sigs = Ok v
                       /\ dict_get String.eqb avg ssid = Some v).
Proof.
  induction items as [| [k sigs0] rest IH]; intros Hnd Hpos acc.
  - exists acc. simpl. repeat split; auto. intros ssid sigs H. discriminate.
  - inversion Hnd as [| ? ? Hk Hnd']; subst.
    assert (Hpos' : forall k' sigs w, In (k', sigs) rest -> In w sigs -> 0 < w)
      by (intros k' sigs w Hin; apply (Hpos k' sigs w); right; exact Hin).
    assert (Hkn : dict_get String.eqb rest k = None)
      by (apply (dict_get_None String.eqb string_eqb_spec); exact Hk).
    destruct sigs0 as [| w ws].
    + simpl. destruct (IH Hnd' Hpos' acc) as (avg & Havg & Hskip & Hval).
      exists avg. split; [exact Havg | split].
      * intros ssid. destruct (String.eqb k ssid) eqn:E.
        -- apply String.eqb_eq in E. subst ssid. intros _. apply Hskip. auto.
        -- apply Hskip.
      * intros ssid sigs. destruct (String.eqb k ssid) eqn:E.
        -- intros H Hne. inversion H; subst. congruence.
        -- apply Hval.
    + destruct (average_dbm_defined w ws) as [v0 Hv0].
      { intros w' Hw'. apply (Hpos k (w :: ws) w'); [left; reflexivity | exact Hw']. }
      simpl averaged_signals_from. rewrite Hv0. unfold py_bind at 1.
      destruct (IH Hnd' Hpos' (dict_set String.eqb acc k v0))
        as (avg & Havg & Hskip & Hval).
      exists avg. split; [exact Havg | split].
      * intros ssid. simpl. destruct (String.eqb k ssid) eqn:E.
        -- intros [H | H]; discriminate.
        -- intros H. rewrite (Hskip ssid H).
           apply (dict_get_set_other String.eqb string_eqb_spec).
           intros Heq. subst. rewrite String.eqb_refl in E. discriminate.
      * intros ssid sigs. simpl. destruct (String.eqb k ssid) eqn:E.
        -- apply String.eqb_eq in E. subst ssid.
           intros H _. inversion H; subst sigs.
           exists v0. split; [exact Hv0 |].
           rewrite (Hskip k (or_intror Hkn)).
           apply (dict_get_set_same String.eqb string_eqb_spec).
        -- apply Hval.
Qed.

(** X19.  On a dictionary of lists of positive watt values, the averages
    of lines 228-230 are defined: a name with an empty list is left out
    (no division by a zero length takes place), a name that is not in the
    dictionary is not in the result, and a name with a non-empty list is
    mapped to the value of the formula on its list. *)
Theorem averaged_signals_skip_empty_lists (items : list (string * list R)) :
  NoDup (dict_keys items) ->
  (forall k sigs w, In (k, sigs) items -> In w sigs -> 0 < w) ->
  exists avg,
    averaged_signals_from items [] = Ok avg
    /\ (forall ssid,
           dict_get String.eqb items ssid = Some []
           \/ dict_get String.eqb items ssid = None ->
           dict_get String.eqb avg ssid = None)
    /\ (forall ssid sigs,
           dict_get String.eqb items ssid = Some sigs -> sigs <> [] ->
           exists v, average_dbm sigs = Ok v
                     /\ dict_get String.eqb avg ssid = Some v).
Proof.
  intros Hnd Hpos.
  destruct (averaged_signals_from_general items Hnd Hpos [])
    as (avg & Havg & Hskip & Hval).
  exists avg. split; [exact Havg | split; [| exact Hval]].
  intros ssid H. rewrite (Hskip ssid H). reflexivity.
Qed.

Lemma averaged_signals_skip_empty_lists_witness :
  exists avg,
    averaged_signals_from [("A"%string, []); ("B"%string, [signal_watts (-50)])] []
    = Ok avg
    /\ dict_get String.eqb avg "A"%string = None.
Proof.
  destruct (averaged_signals_skip_empty_lists
              [("A"%string, []); ("B"%string, [signal_watts (-50)])])
    as (avg & Havg & Hskip & _).
  - repeat constructor; simpl; intuition discriminate.
  - intros k sigs w [H | [H | []]] Hw; inversion H; subst; simpl in Hw.
    + destruct Hw.
    + destruct Hw as [<- | []]. apply signal_watts_pos.
  - exists avg. split; [exact Havg |]. apply Hskip. left. reflexivity.
Defined.

Lemma update_measurements_frame_witness :
  exists ms',
    update_measurements 3 4 [("A"%string, -40)] [(1%Z, 1%Z, "A"%string, -50)]
    = Ok ms'
    /\ In (1%Z, 1%Z, "A"%string) (store_keys ms').
Proof.
  destruct (update_measurements_frame 3 4 [("A"%string, -40)]
              [(1%Z, 1%Z, "A"%string, -50)])
    as (ms' & Hrun & _ & _ & Hkeys).
  exists ms'. split; [exact Hrun |].
  apply Hkeys. simpl. left. reflexivity.
Defined.

Lemma record_click_changes_store_only_by_scan_witness :
  record_click None (fun _ => [("A"%string, -50)]) true 1 2
    (mkApp (Some "map.png"%string) [] true true [] (Some (Finite 1)) 5 false)
  = Ok (mkApp (Some "map.png"%string) [(1%Z, 2%Z, "A"%string, -50)] true true []
          (Some (Finite 1)) 5 false)
  /\ interface
       (mkApp (Some "map.png"%string) [] true true [] (Some (Finite 1)) 5 false)
     = true.
Proof.
  assert (Hrun :
    record_click None (fun _ => [("A"%string, -50)]) true 1 2
      (mkApp (Some "map.png"%string) [] true true [] (Some (Finite 1)) 5 false)
    = Ok (mkApp (Some "map.png"%string) [(1%Z, 2%Z, "A"%string, -50)] true true
            [] (Some (Finite 1)) 5 false)).
  { unfold record_click, perform_scan. simpl.
    rewrite aggregate_scans_third_pass.
    unfold scan_pass. rewrite scan_reading_empty. simpl.
    rewrite average_dbm_single. reflexivity. }
  split; [exact Hrun |].
  apply (record_click_changes_store_only_by_scan _ _ _ _ _ _ _ Hrun).
  simpl. discriminate.
Defined.

(** ** [scan_access_points] *)

Lemma scan_access_points_no_empty (results : list (string * R)) (sg : R) :
  ~ In (EmptyString, sg) (scan_access_points results).
Proof.
  unfold scan_access_points. intros Hin. apply in_map_iff in Hin.
  destruct Hin as ([ssid sg'] & Heq & _). simpl in Heq.
  destruct (String.eqb ssid EmptyString) eqn:E.
  - inversion Heq.
  - inversion Heq; subst. rewrite String.eqb_refl in E. discriminate.
Qed.

(** X4.  The readings [scan_access_points] builds from the results of
    the adapter are as many as the results, in the same order and with
    the same signal strengths; a result with a name keeps it, a result
    with the empty name is named ["<Hidden SSID>"], and no reading has
    the empty name. *)
Theorem scan_access_points_names (results : list (string * R)) :
  List.length (scan_access_points results) = List.length results
  /\ map snd (scan_access_points results) = map snd results
  /\ (forall i ssid sg,
         nth_error results i = Some (ssid, sg) ->
         nth_error (scan_access_points results) i
         = Some (if String.eqb ssid EmptyString then "<Hidden SSID>"%string
                 else ssid, sg))
  /\ (forall sg, ~ In (EmptyString, sg) (scan_access_points results)).
Proof.
  split; [apply length_map | split; [| split]].
  - unfold scan_access_points. rewrite map_map. reflexivity.
  - intros i ssid sg H. unfold scan_access_points.
    rewrite nth_error_map, H. reflexivity.
  - apply scan_access_points_no_empty.
Qed.

Lemma scan_access_points_names_witness :
  nth_error (scan_access_points [(EmptyString, -80); ("Home"%string, -45)]) 0
  = Some ("<Hidden SSID>"%string, -80).
Proof.
  apply (proj1 (proj2 (proj2 (scan_access_points_names
                                [(EmptyString, -80); ("Home"%string, -45)])))
           0%nat EmptyString (-80)).
  reflexivity.
Defined.
